(** * Pokedex: the data acquisition layer of [pokedex_app.py]

    A shallow embedding of the two data functions of the dashboard,
    [fetch_pokemon_data] and [load_pokemon_for_analysis], together with the
    parts of Python, [requests] and [st.cache_data] that they rely on.

    - Python values that come out of [response.json()] are the type [json].
      JSON numbers are integers, as every number of the PokeAPI payloads the
      program reads; strings are byte strings and the case functions map
      ASCII letters only, so that they are Python's on ASCII strings.
    - The remote service is an oracle [net]: the outcome of a request may
      depend on every request issued before it.
    - The program state is the list of requests issued so far and the two
      memoization tables of [st.cache_data].
    - Python exceptions are explicit: a computation returns or raises. *)

From Stdlib Require Import ZArith String Ascii List Bool Floats DecimalString Lia.
Import ListNotations.

#[local] Set Warnings "-inexact-float,-register-all".
#[local] Open Scope string_scope.
#[local] Open Scope Z_scope.

(** ** Python values *)

Inductive json : Type :=
| JNull
| JBool (b : bool)
| JInt (z : Z)
| JStr (s : string)
| JList (l : list json)
| JDict (d : list (string * json)).

(** The exceptions the two functions can meet.  [requests] derives all of its
    own from [RequestException]; [response.json()] raises
    [requests.exceptions.JSONDecodeError], one of them (requests 2.27 and
    later). *)
Inductive request_exception : Type :=
| ConnectionError
| Timeout
| TooManyRedirects
| InvalidURL
| HTTPError
| JSONDecodeError.

Inductive exn : Type :=
| RequestException (r : request_exception)
| KeyError
| TypeError
| IndexError
| AttributeError
| OverflowError.

Inductive result (A : Type) : Type :=
| Return (a : A)
| Raise (e : exn).
Arguments Return {A} a.
Arguments Raise {A} e.

Definition rbind {A B} (r : result A) (k : A -> result B) : result B :=
  match r with
  | Return a => k a
  | Raise e => Raise e
  end.

Declare Scope result_scope.
Delimit Scope result_scope with result.
Notation "x <- c ;; k" := (rbind c (fun x => k))
  (at level 100, c at next level, right associativity) : result_scope.

(** ** Strings *)

Fixpoint string_map (f : ascii -> ascii) (s : string) : string :=
  match s with
  | EmptyString => EmptyString
  | String c r => String (f c) (string_map f r)
  end.

Definition is_upper (c : ascii) : bool :=
  let n := N_of_ascii c in (65 <=? n)%N && (n <=? 90)%N.

Definition is_lower (c : ascii) : bool :=
  let n := N_of_ascii c in (97 <=? n)%N && (n <=? 122)%N.

Definition lower_ascii (c : ascii) : ascii :=
  if is_upper c then ascii_of_N (N_of_ascii c + 32) else c.

Definition upper_ascii (c : ascii) : ascii :=
  if is_lower c then ascii_of_N (N_of_ascii c - 32) else c.

(** [str.lower()] of an ASCII string.  Bytes outside ASCII are kept as they
    are, which is not what Python does to a cased letter outside ASCII: what
    is stated of the value of [lower] is stated of ASCII strings. *)
Definition lower (s : string) : string := string_map lower_ascii s.

(** The strings on which [lower] and [capitalize] are Python's. *)
Fixpoint is_ascii (s : string) : bool :=
  match s with
  | EmptyString => true
  | String c r => (N_of_ascii c <? 128)%N && is_ascii r
  end.

(** [str.capitalize()] of an ASCII string. *)
Definition capitalize (s : string) : string :=
  match s with
  | EmptyString => EmptyString
  | String c r => String (upper_ascii c) (lower r)
  end.

(** [str.replace(old, new)] for one-character [old] and [new], the only way
    the program calls it. *)
Definition replace (old new : ascii) (s : string) : string :=
  string_map (fun c => if Ascii.eqb c old then new else c) s.

Definition LF : ascii := ascii_of_N 10.
Definition FF : ascii := ascii_of_N 12.
Definition SP : ascii := ascii_of_N 32.

(** [str(z)] of a Python [int] *)
Definition str_of_Z (z : Z) : string := NilZero.string_of_int (Z.to_int z).

(** ** Operations on Python values *)

Fixpoint assoc {V} (k : string) (d : list (string * V)) : option V :=
  match d with
  | [] => None
  | (k', v) :: r => if String.eqb k k' then Some v else assoc k r
  end.

(** [o[k]] for a string [k] *)
Definition getitem (o : json) (k : string) : result json :=
  match o with
  | JDict d =>
      match assoc k d with
      | Some v => Return v
      | None => Raise KeyError
      end
  | _ => Raise TypeError
  end.

Fixpoint chars (s : string) : list json :=
  match s with
  | EmptyString => []
  | String c r => JStr (String c EmptyString) :: chars r
  end.

(** [iter(o)], run to the end *)
Definition py_iter (o : json) : result (list json) :=
  match o with
  | JList l => Return l
  | JDict d => Return (map (fun kv => JStr (fst kv)) d)
  | JStr s => Return (chars s)
  | _ => Raise TypeError
  end.

(** [v == s] for a string literal [s] *)
Definition eq_str (v : json) (s : string) : bool :=
  match v with
  | JStr s' => String.eqb s' s
  | _ => false
  end.

(** [v.replace(old, new)] and [v.capitalize()]: only [str] has the methods *)
Definition py_replace (v : json) (old new : ascii) : result string :=
  match v with
  | JStr s => Return (replace old new s)
  | _ => Raise AttributeError
  end.

Definition py_capitalize (v : json) : result string :=
  match v with
  | JStr s => Return (capitalize s)
  | _ => Raise AttributeError
  end.

(** [float(z)] of a Python [int]: the nearest double, ties to even;
    [OverflowError] when there is none. *)
Definition float_of_Z (z : Z) : result float :=
  match binary_normalize prec emax z 0 false with
  | S754_infinity _ => Raise OverflowError
  | f => Return (SF2Prim f)
  end.

(** [v / 10.0] *)
Definition truediv10 (v : json) : result float :=
  match v with
  | JInt z => (f <- float_of_Z z ;; Return (f / 10)%float)%result
  | JBool b => Return ((if b then 1 else 0) / 10)%float
  | _ => Raise TypeError
  end.

(** Structural equality of values: two arguments of a cached function are
    the same cache key when they have the same type and the same value. *)
Fixpoint json_eqb (a b : json) : bool :=
  match a, b with
  | JNull, JNull => true
  | JBool x, JBool y => Bool.eqb x y
  | JInt x, JInt y => Z.eqb x y
  | JStr x, JStr y => String.eqb x y
  | JList x, JList y =>
      (fix go (x y : list json) : bool :=
         match x, y with
         | [], [] => true
         | a :: x', b :: y' => json_eqb a b && go x' y'
         | _, _ => false
         end) x y
  | JDict x, JDict y =>
      (fix go (x y : list (string * json)) : bool :=
         match x, y with
         | [], [] => true
         | (k, a) :: x', (k', b) :: y' =>
             String.eqb k k' && json_eqb a b && go x' y'
         | _, _ => false
         end) x y
  | _, _ => false
  end.

(** *** Python dictionaries built by the program

    Keys are hashable values; [True == 1] and [False == 0] as keys.  A key
    keeps the place of its first insertion and the value of its last. *)
Definition pydict : Type := list (json * json).

Definition hashable (k : json) : bool :=
  match k with
  | JList _ | JDict _ => false
  | _ => true
  end.

Definition key_eqb (a b : json) : bool :=
  match a, b with
  | JNull, JNull => true
  | JStr x, JStr y => String.eqb x y
  | JBool x, JBool y => Bool.eqb x y
  | JInt x, JInt y => Z.eqb x y
  | JBool x, JInt y | JInt y, JBool x => Z.eqb (if x then 1 else 0) y
  | _, _ => false
  end.

Fixpoint dict_store (d : pydict) (k v : json) : pydict :=
  match d with
  | [] => [(k, v)]
  | (k', v') :: r =>
      if key_eqb k' k then (k', v) :: r else (k', v') :: dict_store r k v
  end.

(** [d[k] = v] *)
Definition dict_setitem (d : pydict) (k v : json) : result pydict :=
  if hashable k then Return (dict_store d k v) else Raise TypeError.

Fixpoint dict_lookup (d : pydict) (k : json) : option json :=
  match d with
  | [] => None
  | (k', v) :: r => if key_eqb k' k then Some v else dict_lookup r k
  end.

(** [d.get(k, default)] *)
Definition dict_get (d : pydict) (k : string) (default : json) : json :=
  match dict_lookup d (JStr k) with
  | Some v => v
  | None => default
  end.

(** ** The records the program builds *)

(** The dictionary [fetch_pokemon_data] returns. *)
Record pokemon : Type := mkPokemon {
  id : json;
  name : string;
  image : json;
  types : list json;
  stats : pydict;
  height : float;
  weight : float;
  description : string
}.

(** One element of [all_pokemon_data], a row of the data frame. *)
Record row : Type := mkRow {
  ID : json;
  Nombre : string;
  Tipo_Primario : json;
  Tipo_Secundario : json;
  HP : json;
  Ataque : json;
  Defensa : json;
  At_Especial : json;
  Def_Especial : json;
  Velocidad : json;
  Altura_m : float;
  Peso_kg : float
}.

(** [pd.DataFrame(all_pokemon_data)]: the rows, in order. *)
Definition DataFrame : Type := list row.

(** ** The remote service and the program state *)

Record response : Type := mkResponse {
  status_code : Z;
  body : option json   (* [None]: the body is not JSON *)
}.

Inductive outcome : Type :=
| Failure (e : request_exception)
| Response (r : response).

(** The service answers a request knowing the requests issued before it. *)
Definition network : Type := list string -> string -> outcome.

Record state : Type := mkState {
  requests : list string;                       (* oldest first *)
  fetch_cache : list (json * option pokemon);
  load_cache : list (Z * DataFrame)
}.

Definition M (A : Type) : Type := state -> result A * state.

Definition ret {A} (a : A) : M A := fun st => (Return a, st).

Definition bind {A B} (m : M A) (k : A -> M B) : M B :=
  fun st =>
    match m st with
    | (Return a, st') => k a st'
    | (Raise e, st') => (Raise e, st')
    end.

Definition lift {A} (r : result A) : M A := fun st => (r, st).

Declare Scope prog_scope.
Delimit Scope prog_scope with prog.
Notation "x <- c ;; k" := (bind c (fun x => k))
  (at level 100, c at next level, right associativity) : prog_scope.

(** [try: body except requests.exceptions.RequestException: handler] *)
Definition try_except {A} (body : M A) (handler : M A) : M A :=
  fun st =>
    match body st with
    | (Raise (RequestException _), st') => handler st'
    | other => other
    end.

(** [response.raise_for_status()]: a 4xx or 5xx status is an [HTTPError]. *)
Definition raise_for_status (r : response) : result unit :=
  if (400 <=? status_code r) && (status_code r <? 600)
  then Raise (RequestException HTTPError)
  else Return tt.

(** [response.ok]: [raise_for_status] does not raise. *)
Definition ok (r : response) : bool :=
  match raise_for_status r with
  | Return _ => true
  | Raise _ => false
  end.

(** [response.json()]: the document, or the [JSONDecodeError] of a body that
    is not JSON.  A body that the decoder gives up on in another way (an
    integer literal beyond the interpreter's digit limit, nesting beyond its
    recursion limit) is not among the bodies of the model. *)
Definition response_json (r : response) : result json :=
  match body r with
  | Some v => Return v
  | None => Raise (RequestException JSONDecodeError)
  end.

(** The entry a memoization table holds for the argument [k]. *)
Definition cached {K V} (eqb : K -> K -> bool) (k : K) (table : list (K * V))
    : option (K * V) :=
  find (fun e => eqb (fst e) k) table.

(** [@st.cache_data]: the value returned for an argument is stored and
    returned again for the same argument without running the function; an
    exception is not stored. *)
Definition cache_data {K V} (eqb : K -> K -> bool)
    (table : state -> list (K * V))
    (store : list (K * V) -> state -> state)
    (f : K -> M V) (k : K) : M V :=
  fun st =>
    match cached eqb k (table st) with
    | Some (_, v) => (Return v, st)
    | None =>
        match f k st with
        | (Return v, st') => (Return v, store ((k, v) :: table st') st')
        | (Raise e, st') => (Raise e, st')
        end
    end.

(** The state after one more request. *)
Definition logged (url : string) (st : state) : state :=
  mkState (requests st ++ [url]) (fetch_cache st) (load_cache st).

Definition set_fetch_cache (c : list (json * option pokemon)) (st : state) : state :=
  mkState (requests st) c (load_cache st).

Definition set_load_cache (c : list (Z * DataFrame)) (st : state) : state :=
  mkState (requests st) (fetch_cache st) c.

(** ** The program *)

Section Program.

(** Python's [repr] of lists and dictionaries, which [str] falls back to. *)
Variable repr : json -> string.
Variable net : network.

(** [str(v)] *)
Definition py_str (v : json) : string :=
  match v with
  | JStr s => s
  | JInt z => str_of_Z z
  | JBool true => "True"
  | JBool false => "False"
  | JNull => "None"
  | _ => repr v
  end.

(** [requests.get(url)] *)
Definition requests_get (url : string) : M response :=
  fun st =>
    match net (requests st) url with
    | Failure e => (Raise (RequestException e), logged url st)
    | Response r => (Return r, logged url st)
    end.

Definition pokemon_url (identifier : json) : string :=
  "https://pokeapi.co/api/v2/pokemon/" ++ lower (py_str identifier).

Definition fallback_description : string := "Descripción no disponible.".

(** The generator of lines 39-43, advanced by [next] to its first value. *)
Fixpoint first_spanish (entries : list json) : result (option string) :=
  match entries with
  | [] => Return None
  | entry :: rest =>
      (language <- getitem entry "language" ;;
       tag <- getitem language "name" ;;
       if eq_str tag "es" then
         flavor_text <- getitem entry "flavor_text" ;;
         s <- py_replace flavor_text LF SP ;;
         Return (Some (replace FF SP s))
       else first_spanish rest)%result
  end.

Definition select_description (species_data : json) : result string :=
  (entries <- getitem species_data "flavor_text_entries" ;;
   entries <- py_iter entries ;;
   found <- first_spanish entries ;;
   Return match found with
          | Some s => s
          | None => fallback_description
          end)%result.

(** [[t['type']['name'] for t in data['types']]] *)
Fixpoint type_names (l : list json) : result (list json) :=
  match l with
  | [] => Return []
  | t :: rest =>
      (ty <- getitem t "type" ;;
       n <- getitem ty "name" ;;
       ns <- type_names rest ;;
       Return (n :: ns))%result
  end.

(** [{s['stat']['name']: s['base_stat'] for s in data['stats']}] *)
Fixpoint stat_values (l : list json) (acc : pydict) : result pydict :=
  match l with
  | [] => Return acc
  | s :: rest =>
      (stat <- getitem s "stat" ;;
       k <- getitem stat "name" ;;
       v <- getitem s "base_stat" ;;
       acc' <- dict_setitem acc k v ;;
       stat_values rest acc')%result
  end.

(** The dictionary of lines 45-52. *)
Definition build_record (data : json) (description : string) : result pokemon :=
  (i <- getitem data "id" ;;
   n <- getitem data "name" ;;
   n <- py_capitalize n ;;
   sprites <- getitem data "sprites" ;;
   other <- getitem sprites "other" ;;
   artwork <- getitem other "official-artwork" ;;
   img <- getitem artwork "front_default" ;;
   ts <- getitem data "types" ;;
   ts <- py_iter ts ;;
   ts <- type_names ts ;;
   ss <- getitem data "stats" ;;
   ss <- py_iter ss ;;
   ss <- stat_values ss [] ;;
   h <- getitem data "height" ;;
   h <- truediv10 h ;;
   w <- getitem data "weight" ;;
   w <- truediv10 w ;;
   Return (mkPokemon i n img ts ss h w description))%result.

(** The function under the decorator. *)
Definition fetch_pokemon_data_body (identifier : json) : M (option pokemon) :=
  try_except
    (response <- requests_get (pokemon_url identifier) ;;
     _ <- lift (raise_for_status response) ;;
     data <- lift (response_json response) ;;
     species <- lift (getitem data "species") ;;
     species_url <- lift (getitem species "url") ;;
     (* requests takes [str(url)] of a URL that is not a string *)
     species_response <- requests_get (py_str species_url) ;;
     _ <- lift (raise_for_status species_response) ;;
     species_data <- lift (response_json species_response) ;;
     description <- lift (select_description species_data) ;;
     record <- lift (build_record data description) ;;
     ret (Some record))%prog
    (ret None).

Definition fetch_pokemon_data : json -> M (option pokemon) :=
  cache_data json_eqb fetch_cache set_fetch_cache fetch_pokemon_data_body.

(** [data['types'][0]] *)
Definition first_type (ts : list json) : result json :=
  match ts with
  | t :: _ => Return t
  | [] => Raise IndexError
  end.

(** [data['types'][1] if len(data['types']) > 1 else None] *)
Definition second_type (ts : list json) : json :=
  match ts with
  | _ :: t :: _ => t
  | _ => JNull
  end.

(** The dictionary [flat_data] of lines 68-75. *)
Definition flat_data (data : pokemon) : result row :=
  (primary <- first_type (types data) ;;
   Return (mkRow (id data) (name data) primary (second_type (types data))
             (dict_get (stats data) "hp" (JInt 0))
             (dict_get (stats data) "attack" (JInt 0))
             (dict_get (stats data) "defense" (JInt 0))
             (dict_get (stats data) "special-attack" (JInt 0))
             (dict_get (stats data) "special-defense" (JInt 0))
             (dict_get (stats data) "speed" (JInt 0))
             (height data) (weight data)))%result.

(** The loop of lines 65-76; [all_pokemon_data] is the accumulator.  The
    dictionary a fetch returns is never empty, so [if data:] tells a record
    from [None]. *)
Fixpoint load_loop (results : list json) (all_pokemon_data : list row)
    : M (list row) :=
  match results with
  | [] => ret all_pokemon_data
  | pokemon :: rest =>
      (n <- lift (getitem pokemon "name") ;;
       data <- fetch_pokemon_data n ;;
       match data with
       | Some data =>
           flat <- lift (flat_data data) ;;
           load_loop rest (all_pokemon_data ++ [flat])
       | None => load_loop rest all_pokemon_data
       end)%prog
  end.

Definition listing_url (limit : Z) : string :=
  "https://pokeapi.co/api/v2/pokemon?limit=" ++ str_of_Z limit.

(** The function under the decorator. *)
Definition load_pokemon_for_analysis_body (limit : Z) : M DataFrame :=
  (response <- requests_get (listing_url limit) ;;
   if ok response then
     listing <- lift (response_json response) ;;
     results <- lift (getitem listing "results") ;;
     results <- lift (py_iter results) ;;
     load_loop results []
   else ret [])%prog.

Definition load_pokemon_for_analysis : Z -> M DataFrame :=
  cache_data Z.eqb load_cache set_load_cache load_pokemon_for_analysis_body.

(** ** Notions the properties are stated with *)

(** One call of the fetcher per listed entry, in listing order. *)
Fixpoint fetch_all (results : list json) : M (list (option pokemon)) :=
  match results with
  | [] => ret []
  | pokemon :: rest =>
      (n <- lift (getitem pokemon "name") ;;
       data <- fetch_pokemon_data n ;;
       others <- fetch_all rest ;;
       ret (data :: others))%prog
  end.

End Program.

(** The rows of the records fetched, in order, absences left out. *)
Fixpoint rows_of (fetched : list (option pokemon)) : result (list row) :=
  match fetched with
  | [] => Return []
  | None :: rest => rows_of rest
  | Some data :: rest =>
      (flat <- flat_data data ;;
       rows <- rows_of rest ;;
       Return (flat :: rows))%result
  end.

Definition absent (data : option pokemon) : bool :=
  match data with
  | None => true
  | Some _ => false
  end.

Definition count_absent (fetched : list (option pokemon)) : nat :=
  length (filter absent fetched).

(** A request that does not deliver a JSON document. *)
Inductive request_failure (o : outcome) : Prop :=
| transport_error (e : request_exception) :
    o = Failure e -> request_failure o
| error_status (r : response) :
    o = Response r -> 400 <= status_code r < 600 -> request_failure o
| malformed_json (r : response) :
    o = Response r -> body r = None -> request_failure o.

(** An exception of the program's own evaluation, not one of [requests]. *)
Definition local {A} (r : result A) : Prop :=
  match r with
  | Raise (RequestException _) => False
  | _ => True
  end.

(** [entry['language']['name']] and [s['stat']['name']] *)
Definition language_tag (entry : json) : result json :=
  (language <- getitem entry "language" ;; getitem language "name")%result.

Definition stat_name (s : json) : result json :=
  (stat <- getitem s "stat" ;; getitem stat "name")%result.

(** An entry the scan for the description passes over. *)
Definition other_language (entry : json) : Prop :=
  exists tag, language_tag entry = Return tag /\ eq_str tag "es" = false.

(** What the two [replace] calls do to one character. *)
Definition clean (c : ascii) : ascii :=
  if Ascii.eqb c LF || Ascii.eqb c FF then SP else c.

(** The six stat columns of a row and the keys they are read from. *)
Definition stat_columns : list (string * (row -> json)) :=
  [("hp", HP); ("attack", Ataque); ("defense", Defensa);
   ("special-attack", At_Especial); ("special-defense", Def_Especial);
   ("speed", Velocidad)].

(** ** The dashboard's use of the two functions *)

(** [df[c].tolist()].  The data frame is built from the list of row
    dictionaries, so it has the twelve columns when there is a row and no
    column at all when there is none. *)
Definition column {A} (field : row -> A) (df : DataFrame) : result (list A) :=
  match df with
  | [] => Raise KeyError
  | _ => Return (map field df)
  end.

(** Line 127: [pokemon_list = df_pokemon['Nombre'].tolist()] *)
Definition pokemon_list (df_pokemon : DataFrame) : result (list string) :=
  column Nombre df_pokemon.

Section Dashboard.

Variable repr : json -> string.
Variable net : network.

(** Lines 92-99: the identifier a run of the script looks up, which is what
    [st.session_state.current_pokemon_id] holds when the fetch starts.
    [session] is that entry before the run, [None] in a new session;
    [search_term] is the text of the input box and [clicked] what
    [st.button] returned. *)
Definition searched (session : option json) (search_term : string)
    (clicked : bool) : json :=
  let current := match session with
                 | Some c => c
                 | None => JInt 1
                 end in
  if clicked then
    if String.eqb search_term "" then current else JStr search_term
  else current.

(** Lines 101-104: the fetch of a run and [current_pokemon_id] after it,
    before anything is drawn. *)
Definition pokedex_lookup (session : option json) (search_term : string)
    (clicked : bool) : M (json * option pokemon) :=
  (pokemon <- fetch_pokemon_data repr net (searched session search_term clicked) ;;
   ret (match pokemon with
        | Some p => id p
        | None => searched session search_term clicked
        end, pokemon))%prog.

(** Lines 134-135: the two fetches of the comparator, for the names chosen
    in the two select boxes. *)
Definition compare_fetch (pokemon1_name pokemon2_name : string)
    : M (option pokemon * option pokemon) :=
  (data1 <- fetch_pokemon_data repr net (JStr (lower pokemon1_name)) ;;
   data2 <- fetch_pokemon_data repr net (JStr (lower pokemon2_name)) ;;
   ret (data1, data2))%prog.

End Dashboard.

(** The entries a listing response has for the loader to go through. *)
Definition listed (o : outcome) : list json :=
  match o with
  | Failure _ => []
  | Response r =>
      if ok r then
        match body r with
        | Some doc =>
            match (rs <- getitem doc "results" ;; py_iter rs)%result with
            | Return entries => entries
            | Raise _ => []
            end
        | None => []
        end
      else []
  end.

(** What the fetcher returned for a listed entry is what the cache holds for
    the entry's name when the loop is over. *)
Definition held (st : state) (entry : json) (data : option pokemon) : Prop :=
  exists n, getitem entry "name" = Return n /\
            cached json_eqb n (fetch_cache st) = Some (n, data).

(** ** Example services *)

Definition init : state := mkState [] [] [].

(** No example prints a list or a dictionary. *)
Definition any_repr (_ : json) : string := "".

Definition not_found : outcome := Response (mkResponse 404 None).

(** A service that answers by URL, the same way every time. *)
Definition serve (pages : list (string * outcome)) : network :=
  fun _ url =>
    match assoc url pages with
    | Some o => o
    | None => not_found
    end.

Definition page (v : json) : outcome := Response (mkResponse 200 (Some v)).

Definition stat_entry (n : string) (v : Z) : json :=
  JDict [("base_stat", JInt v); ("effort", JInt 0);
         ("stat", JDict [("name", JStr n)])].

Definition type_entry (slot : Z) (n : string) : json :=
  JDict [("slot", JInt slot); ("type", JDict [("name", JStr n)])].

Definition flavor (language text : string) : json :=
  JDict [("flavor_text", JStr text);
         ("language", JDict [("name", JStr language)])].

Definition six_stats : json :=
  JList [stat_entry "hp" 35; stat_entry "attack" 55; stat_entry "defense" 40;
         stat_entry "special-attack" 50; stat_entry "special-defense" 50;
         stat_entry "speed" 90].

Definition entity (i : Z) (n : string) (species : list (string * json))
    (type_list stat_list : json) (h w : Z) : json :=
  JDict [("height", JInt h); ("id", JInt i); ("name", JStr n);
         ("species", JDict species);
         ("sprites",
          JDict [("other",
                  JDict [("official-artwork",
                          JDict [("front_default", JStr "25.png")])])]);
         ("stats", stat_list); ("types", type_list); ("weight", JInt w)].

Definition species_url : string :=
  "https://pokeapi.co/api/v2/pokemon-species/25/".

Definition pikachu_url : string := "https://pokeapi.co/api/v2/pokemon/pikachu".

Definition pikachu : json :=
  entity 25 "pikachu" [("url", JStr species_url)]
    (JList [type_entry 1 "electric"]) six_stats 4 60.

Definition pikachu_species : json :=
  JDict [("flavor_text_entries",
          JList [flavor "en" "Mouse";
                 flavor "es" ("Raton" ++ String LF "electrico" ++ String FF "amarillo");
                 flavor "es" "Otro"])].

Definition pokeapi : network :=
  serve [(pikachu_url, page pikachu); (species_url, page pikachu_species)].

(** The entity record without its [species] field. *)
Definition no_species_field : network :=
  serve [(pikachu_url, page (entity 25 "pikachu" [] (JList [type_entry 1 "electric"]) six_stats 4 60))].


(** An entity with no type and no stat. *)
Definition typeless : network :=
  serve [(pikachu_url,
          page (entity 25 "pikachu" [("url", JStr species_url)] (JList []) (JList []) 4 60));
         (species_url, page pikachu_species)].

(** A species record without Spanish text. *)
Definition english_only : network :=
  serve [(pikachu_url, page pikachu);
         (species_url, page (JDict [("flavor_text_entries", JList [flavor "en" "Mouse"])]))].

Definition listing (names : list string) : json :=
  JDict [("count", JInt 1302);
         ("results", JList (map (fun n => JDict [("name", JStr n)]) names))].

Definition raichu_url : string := "https://pokeapi.co/api/v2/pokemon/raichu".

Definition raichu : json :=
  entity 26 "raichu" [("url", JStr species_url)]
    (JList [type_entry 1 "electric"]) six_stats 8 300.

(** A listing of three names, the second of them unknown to the service. *)
Definition three_listed : network :=
  serve [("https://pokeapi.co/api/v2/pokemon?limit=3",
          page (listing ["pikachu"; "missingno"; "raichu"]));
         (pikachu_url, page pikachu); (raichu_url, page raichu);
         (species_url, page pikachu_species)].

(** A service whose listings do not have as many entries as the limit. *)
Definition unmetered : network :=
  serve [("https://pokeapi.co/api/v2/pokemon?limit=0", page (listing ["pikachu"]));
         ("https://pokeapi.co/api/v2/pokemon?limit=1",
          page (listing ["pikachu"; "raichu"]));
         ("https://pokeapi.co/api/v2/pokemon?limit=5",
          page (listing ["pikachu"; "raichu"]));
         (pikachu_url, page pikachu); (raichu_url, page raichu);
         (species_url, page pikachu_species)].

Definition server_error : network :=
  serve [("https://pokeapi.co/api/v2/pokemon?limit=151",
          Response (mkResponse 500 None))].

Definition unreachable : network := fun _ _ => Failure ConnectionError.

(** A listing whose one entity has no type. *)
Definition typeless_listed : network :=
  serve [("https://pokeapi.co/api/v2/pokemon?limit=1", page (listing ["pikachu"]));
         (pikachu_url,
          page (entity 25 "pikachu" [("url", JStr species_url)] (JList []) six_stats 4 60));
         (species_url, page pikachu_species)].

(** A listing whose second entry has no name. *)
Definition nameless_listed : network :=
  serve [("https://pokeapi.co/api/v2/pokemon?limit=2",
          page (JDict [("results",
                        JList [JDict [("name", JStr "pikachu")]; JDict []])]));
         (pikachu_url, page pikachu); (species_url, page pikachu_species)].

(** A listing answered with a page that is not JSON, and one without its
    [results]. *)
Definition html_listing : network :=
  serve [("https://pokeapi.co/api/v2/pokemon?limit=151",
          Response (mkResponse 200 None))].

Definition no_results : network :=
  serve [("https://pokeapi.co/api/v2/pokemon?limit=151", page (JDict []))].

(** An entity whose stats name "hp" twice. *)
Definition hp_twice : network :=
  serve [(pikachu_url,
          page (entity 25 "pikachu" [("url", JStr species_url)]
                  (JList [type_entry 1 "electric"])
                  (JList [stat_entry "hp" 35; stat_entry "speed" 90; stat_entry "hp" 99])
                  4 60));
         (species_url, page pikachu_species)].

(** The service of [pokeapi], which also knows "pikachu" as number 25. *)
Definition pokeapi_by_id : network :=
  serve [(pikachu_url, page pikachu);
         ("https://pokeapi.co/api/v2/pokemon/25", page pikachu);
         (species_url, page pikachu_species)].

(** A listing sent under status 300, and a 304 without a body. *)
Definition off_status : network :=
  serve [("https://pokeapi.co/api/v2/pokemon?limit=1",
          Response (mkResponse 300 (Some (listing ["pikachu"]))));
         ("https://pokeapi.co/api/v2/pokemon?limit=2",
          Response (mkResponse 304 None));
         (pikachu_url, page pikachu); (species_url, page pikachu_species)].

(** * Properties *)

(** ** Values and strings *)

Lemma json_eqb_refl : forall a, json_eqb a a = true.
Proof.
  fix IH 1. intros [ | b | z | s | l | d ]; simpl.
  - reflexivity.
  - apply Bool.eqb_reflx.
  - apply Z.eqb_refl.
  - apply String.eqb_refl.
  - induction l as [ | x l IHl ]; [ reflexivity | ].
    rewrite IH. exact IHl.
  - induction d as [ | [k x] d IHd ]; [ reflexivity | ].
    rewrite String.eqb_refl, IH. exact IHd.
Qed.

Lemma json_eqb_eq : forall a b, json_eqb a b = true -> a = b.
Proof.
  fix IH 1. intros [ | x | x | x | x | x ] [ | y | y | y | y | y ]; simpl;
    try discriminate; intro H.
  - reflexivity.
  - f_equal. now apply Bool.eqb_prop.
  - f_equal. now apply Z.eqb_eq.
  - f_equal. now apply String.eqb_eq.
  - f_equal. revert y H.
    induction x as [ | a x IHx ]; intros [ | b y ] H; try discriminate H.
    + reflexivity.
    + apply andb_true_iff in H. destruct H as [H1 H2].
      f_equal; [ now apply IH | now apply IHx ].
  - f_equal. revert y H.
    induction x as [ | [k a] x IHx ]; intros [ | [k' b] y ] H; try discriminate H.
    + reflexivity.
    + apply andb_true_iff in H. destruct H as [H H3].
      apply andb_true_iff in H. destruct H as [H1 H2].
      apply String.eqb_eq in H1. subst k'.
      f_equal; [ f_equal; now apply IH | now apply IHx ].
Qed.

Lemma json_eqb_neq a b : a <> b -> json_eqb a b = false.
Proof.
  intro N. destruct (json_eqb a b) eqn:E; [ | reflexivity ].
  now apply json_eqb_eq in E.
Qed.

(** ** Exceptions of the pure parts *)

Lemma local_rbind {A B} (c : result A) (k : A -> result B) :
  local c -> (forall a, local (k a)) -> local (rbind c k).
Proof. destruct c as [a | e]; simpl; auto. Qed.

Lemma local_getitem o k : local (getitem o k).
Proof. destruct o; simpl; auto. destruct (assoc k d); simpl; auto. Qed.

Lemma local_py_iter o : local (py_iter o).
Proof. destruct o; simpl; auto. Qed.

Lemma local_py_replace v a b : local (py_replace v a b).
Proof. destruct v; simpl; auto. Qed.

Lemma local_py_capitalize v : local (py_capitalize v).
Proof. destruct v; simpl; auto. Qed.

Lemma local_truediv10 v : local (truediv10 v).
Proof.
  destruct v; simpl; auto. unfold float_of_Z.
  destruct (binary_normalize prec emax z 0 false); simpl; auto.
Qed.

Lemma local_dict_setitem d k v : local (dict_setitem d k v).
Proof. unfold dict_setitem. destruct (hashable k); simpl; auto. Qed.

Create HintDb local.
#[local] Hint Resolve local_getitem local_py_iter local_py_replace
  local_py_capitalize local_truediv10 local_dict_setitem : local.

Ltac local_step := apply local_rbind; [ solve [ auto with local ] | intro ].

Lemma local_first_spanish l : local (first_spanish l).
Proof.
  induction l as [ | e l IH ]; simpl; [ exact I | ].
  do 2 local_step.
  destruct (eq_str _ "es"); [ | exact IH ].
  do 2 local_step. exact I.
Qed.

Lemma local_select_description d : local (select_description d).
Proof.
  unfold select_description. do 2 local_step.
  apply local_rbind; [ apply local_first_spanish | intro ]. exact I.
Qed.

Lemma local_type_names l : local (type_names l).
Proof.
  induction l as [ | t l IH ]; simpl; [ exact I | ].
  do 2 local_step.
  apply local_rbind; [ exact IH | intro ]. exact I.
Qed.

Lemma local_stat_values l : forall acc, local (stat_values l acc).
Proof.
  induction l as [ | s l IH ]; intro acc; simpl; [ exact I | ].
  do 4 local_step. apply IH.
Qed.

Lemma local_build_record data desc : local (build_record data desc).
Proof.
  unfold build_record. do 9 local_step.
  apply local_rbind; [ apply local_type_names | intro ].
  do 2 local_step.
  apply local_rbind; [ apply local_stat_values | intro ].
  do 4 local_step. exact I.
Qed.

(** ** The cache decorator *)

Lemma cache_data_hit {K V} (eqb : K -> K -> bool) table store
    (f : K -> M V) k st k' v :
  cached eqb k (table st) = Some (k', v) ->
  cache_data eqb table store f k st = (Return v, st).
Proof. unfold cache_data. now intros ->. Qed.

Lemma cache_data_miss {K V} (eqb : K -> K -> bool) table store
    (f : K -> M V) k st :
  cached eqb k (table st) = None ->
  cache_data eqb table store f k st =
  match f k st with
  | (Return v, st') => (Return v, store ((k, v) :: table st') st')
  | (Raise e, st') => (Raise e, st')
  end.
Proof. unfold cache_data. now intros ->. Qed.

Lemma ok_status r :
  ok r = negb ((400 <=? status_code r) && (status_code r <? 600)).
Proof.
  unfold ok, raise_for_status.
  now destruct ((400 <=? status_code r) && (status_code r <? 600)).
Qed.

Lemma ok_false r : ok r = false <-> 400 <= status_code r < 600.
Proof.
  rewrite ok_status, negb_false_iff, andb_true_iff, Z.leb_le, Z.ltb_lt.
  reflexivity.
Qed.

Section Properties.

Variable repr : json -> string.
Variable net : network.

(** ** The fetcher, stage by stage *)

Lemma fetch_body_eq identifier st :
  fetch_pokemon_data_body repr net identifier st =
  let st1 := logged (pokemon_url repr identifier) st in
  match net (requests st) (pokemon_url repr identifier) with
  | Failure _ => (Return None, st1)
  | Response r =>
      if ok r then
        match body r with
        | None => (Return None, st1)
        | Some data =>
            match (species <- getitem data "species" ;;
                   getitem species "url")%result with
            | Raise e => (Raise e, st1)
            | Return u =>
                let st2 := logged (py_str repr u) st1 in
                match net (requests st1) (py_str repr u) with
                | Failure _ => (Return None, st2)
                | Response r2 =>
                    if ok r2 then
                      match body r2 with
                      | None => (Return None, st2)
                      | Some sdata =>
                          match (description <- select_description sdata ;;
                                 build_record data description)%result with
                          | Return p => (Return (Some p), st2)
                          | Raise e => (Raise e, st2)
                          end
                      end
                    else (Return None, st2)
                end
            end
        end
      else (Return None, st1)
  end.
Proof.
  unfold fetch_pokemon_data_body, try_except, bind, requests_get, lift, ret,
    ok, response_json.
  cbv zeta.
  destruct (net (requests st) (pokemon_url repr identifier)) as [e | r];
    [ reflexivity | ].
  destruct (raise_for_status r) as [[] | e] eqn:Hs.
  2:{ unfold raise_for_status in Hs.
      destruct ((400 <=? status_code r) && (status_code r <? 600));
        inversion Hs; reflexivity. }
  destruct (body r) as [data | ]; [ | reflexivity ].
  pose proof (local_getitem data "species") as L1.
  destruct (getitem data "species") as [species | e]; simpl.
  2:{ destruct e; simpl in L1; [ contradiction | reflexivity .. ]. }
  pose proof (local_getitem species "url") as L2.
  destruct (getitem species "url") as [u | e]; simpl.
  2:{ destruct e; simpl in L2; [ contradiction | reflexivity .. ]. }
  destruct (net _ (py_str repr u)) as [e | r2]; [ reflexivity | ].
  destruct (raise_for_status r2) as [[] | e] eqn:Hs2.
  2:{ unfold raise_for_status in Hs2.
      destruct ((400 <=? status_code r2) && (status_code r2 <? 600));
        inversion Hs2; reflexivity. }
  destruct (body r2) as [sdata | ]; [ | reflexivity ].
  pose proof (local_select_description sdata) as L3.
  destruct (select_description sdata) as [desc | e]; simpl.
  2:{ destruct e; simpl in L3; [ contradiction | reflexivity .. ]. }
  pose proof (local_build_record data desc) as L4.
  destruct (build_record data desc) as [p | e]; simpl; [ reflexivity | ].
  destruct e; simpl in L4; [ contradiction | reflexivity .. ].
Qed.


Lemma fetch_miss identifier st :
  cached json_eqb identifier (fetch_cache st) = None ->
  fetch_pokemon_data repr net identifier st =
  match fetch_pokemon_data_body repr net identifier st with
  | (Return v, st') =>
      (Return v, set_fetch_cache ((identifier, v) :: fetch_cache st') st')
  | (Raise e, st') => (Raise e, st')
  end.
Proof. apply cache_data_miss. Qed.


Lemma fetch_body_primary_failure identifier st :
  request_failure (net (requests st) (pokemon_url repr identifier)) ->
  fetch_pokemon_data_body repr net identifier st =
  (Return None, logged (pokemon_url repr identifier) st).
Proof.
  intro F. rewrite fetch_body_eq. cbv zeta.
  destruct F as [e -> | r -> Hs | r -> Hb ]; [ reflexivity | | ].
  - apply ok_false in Hs. now rewrite Hs.
  - rewrite Hb. now destruct (ok r).
Qed.


(** ** C1: failures of either request give [None] *)


(** ** What a returned record is made of *)

Ltac rbind_inv H :=
  match type of H with
  | rbind ?c _ = Return _ =>
      let E := fresh "E" in
      destruct c eqn:E; simpl in H; [ | discriminate H ]
  end.

Lemma build_record_inv data desc p :
  build_record data desc = Return p ->
  exists type_list stat_list,
    (ts <- getitem data "types" ;; py_iter ts)%result = Return type_list /\
    type_names type_list = Return (types p) /\
    (ss <- getitem data "stats" ;; py_iter ss)%result = Return stat_list /\
    stat_values stat_list [] = Return (stats p) /\
    getitem data "id" = Return (id p) /\
    (n <- getitem data "name" ;; py_capitalize n)%result = Return (name p) /\
    (h <- getitem data "height" ;; truediv10 h)%result = Return (height p) /\
    (w <- getitem data "weight" ;; truediv10 w)%result = Return (weight p) /\
    description p = desc.
Proof.
  unfold build_record. intro H. repeat rbind_inv H.
  injection H as <-. simpl.
  eexists; eexists.
  repeat match goal with
         | E : ?c = Return _ |- context [ ?c ] => rewrite E; simpl
         end.
  repeat split; eassumption.
Qed.

Lemma fetch_body_record identifier st p st' :
  fetch_pokemon_data_body repr net identifier st = (Return (Some p), st') ->
  exists r data u r2 sdata,
    net (requests st) (pokemon_url repr identifier) = Response r /\
    ok r = true /\ body r = Some data /\
    (species <- getitem data "species" ;; getitem species "url")%result = Return u /\
    net (requests st ++ [pokemon_url repr identifier])%list (py_str repr u)
      = Response r2 /\
    ok r2 = true /\ body r2 = Some sdata /\
    select_description sdata = Return (description p) /\
    build_record data (description p) = Return p /\
    st' = logged (py_str repr u) (logged (pokemon_url repr identifier) st).
Proof.
  rewrite fetch_body_eq. cbv zeta. intro H.
  destruct (net (requests st) _) as [e | r] eqn:Hn; [ discriminate H | ].
  destruct (ok r) eqn:Ho; [ | discriminate H ].
  destruct (body r) as [data | ] eqn:Hb; [ | discriminate H ].
  destruct (rbind (getitem data "species") _) as [u | e] eqn:Hu; [ | discriminate H ].
  simpl in H.
  destruct (net _ (py_str repr u)) as [e | r2] eqn:Hn2; [ discriminate H | ].
  destruct (ok r2) eqn:Ho2; [ | discriminate H ].
  destruct (body r2) as [sdata | ] eqn:Hb2; [ | discriminate H ].
  destruct (select_description sdata) as [desc | e] eqn:Hd; simpl in H;
    [ | discriminate H ].
  destruct (build_record data desc) as [q | e] eqn:Hq; [ | discriminate H ].
  injection H as -> <-.
  destruct (build_record_inv _ _ _ Hq) as (_ & _ & _ & _ & _ & _ & _ & _ & _ & _ & Hdesc).
  subst desc.
  exists r, data, u, r2, sdata. repeat split; assumption.
Qed.

Lemma fetch_record identifier st p st' :
  cached json_eqb identifier (fetch_cache st) = None ->
  fetch_pokemon_data repr net identifier st = (Return (Some p), st') ->
  exists st1,
    fetch_pokemon_data_body repr net identifier st = (Return (Some p), st1) /\
    st' = set_fetch_cache ((identifier, Some p) :: fetch_cache st1) st1.
Proof.
  intros Hmiss. rewrite (fetch_miss _ _ Hmiss).
  destruct (fetch_pokemon_data_body repr net identifier st) as [[v | e] st1];
    [ | discriminate ].
  intro H. injection H as -> <-. exists st1. split; reflexivity.
Qed.

(** ** C2: the types and the stats of a record *)

Lemma type_names_length l : forall ns,
  type_names l = Return ns -> length ns = length l.
Proof.
  induction l as [ | t l IH ]; simpl; intros ns H.
  - now injection H as <-.
  - repeat rbind_inv H. injection H as <-. simpl. f_equal. now apply IH.
Qed.

Lemma key_eqb_str k s : key_eqb k (JStr s) = true <-> k = JStr s.
Proof.
  destruct k; simpl; split; try discriminate.
  - intro H. apply String.eqb_eq in H. now subst.
  - intro H. injection H as ->. apply String.eqb_refl.
Qed.

Lemma dict_lookup_store d k v s :
  dict_lookup (dict_store d k v) (JStr s) =
  if key_eqb k (JStr s) then Some v else dict_lookup d (JStr s).
Proof.
  induction d as [ | [k0 v0] d IH ]; simpl; [ reflexivity | ].
  destruct (key_eqb k0 k) eqn:Hk; simpl.
  - destruct (key_eqb k0 (JStr s)) eqn:H0.
    + apply key_eqb_str in H0. subst k0. simpl in Hk.
      destruct k; try discriminate Hk. simpl. now rewrite String.eqb_sym, Hk.
    + destruct (key_eqb k (JStr s)) eqn:H1; [ | reflexivity ].
      apply key_eqb_str in H1. subst k.
      destruct k0; try discriminate Hk. simpl in Hk, H0. congruence.
  - rewrite IH. destruct (key_eqb k0 (JStr s)) eqn:H0; [ | reflexivity ].
    destruct (key_eqb k (JStr s)) eqn:H1; [ | reflexivity ].
    apply key_eqb_str in H0, H1. subst. simpl in Hk.
    now rewrite String.eqb_refl in Hk.
Qed.

Lemma stat_values_keys l : forall acc d (k : string),
  stat_values l acc = Return d ->
  dict_lookup d (JStr k) <> None <->
  dict_lookup acc (JStr k) <> None \/
  exists s, In s l /\ stat_name s = Return (JStr k).
Proof.
  induction l as [ | s l IH ]; simpl; intros acc d k H.
  - injection H as <-. split; [ now left | ].
    intros [H | (s & [] & _)]. exact H.
  - unfold stat_name.
    destruct (getitem s "stat") as [stat | ] eqn:E1; simpl in H; [ | discriminate H ].
    destruct (getitem stat "name") as [key | ] eqn:E2; simpl in H; [ | discriminate H ].
    destruct (getitem s "base_stat") as [v | ] eqn:E3; simpl in H; [ | discriminate H ].
    unfold dict_setitem in H. destruct (hashable key); simpl in H; [ | discriminate H ].
    rewrite (IH _ _ k H), dict_lookup_store. clear IH H.
    split.
    + intros [H | (s' & Hin & Hs')].
      * destruct (key_eqb key (JStr k)) eqn:Hk; [ | now left ].
        apply key_eqb_str in Hk. subst key.
        right. exists s. split; [ now left | ]. now rewrite E1.
      * right. exists s'. split; [ now right | exact Hs' ].
    + intros [H | (s' & [<- | Hin] & Hs')].
      * left. now destruct (key_eqb key (JStr k)).
      * left. rewrite E1 in Hs'. simpl in Hs'. rewrite E2 in Hs'.
        injection Hs' as ->. simpl. now rewrite String.eqb_refl.
      * right. exists s'. split; assumption.
Qed.

(** C2 (amended).  A record that a fetch returns carries one type name per
    entry of the [types] array of the entity document, in order, and its stats
    have exactly the string keys named by the entries of the [stats] array:
    the length is 1 or 2 and the six keys are there when the service sends
    them so, and nothing in the fetch makes it so or defaults a missing key.
    The default 0 is the loader's: each stat column of a flattened record is
    the value under its key, or 0 when the key is missing. *)
Theorem fetched_types_and_stats identifier st p st' :
  cached json_eqb identifier (fetch_cache st) = None ->
  fetch_pokemon_data repr net identifier st = (Return (Some p), st') ->
  exists r data type_list stat_list,
    net (requests st) (pokemon_url repr identifier) = Response r /\
    body r = Some data /\
    (ts <- getitem data "types" ;; py_iter ts)%result = Return type_list /\
    (ss <- getitem data "stats" ;; py_iter ss)%result = Return stat_list /\
    type_names type_list = Return (types p) /\
    length (types p) = length type_list /\
    (forall k : string,
       dict_lookup (stats p) (JStr k) <> None <->
       exists s, In s stat_list /\ stat_name s = Return (JStr k)) /\
    (forall flat, flat_data p = Return flat ->
       Forall (fun column =>
                 snd column flat =
                 match dict_lookup (stats p) (JStr (fst column)) with
                 | Some v => v
                 | None => JInt 0
                 end) stat_columns).
Proof.
  intros Hmiss H.
  destruct (fetch_record _ _ _ _ Hmiss H) as (st1 & Hbody & _).
  destruct (fetch_body_record _ _ _ _ Hbody)
    as (r & data & u & r2 & sdata & Hn & _ & Hb & _ & _ & _ & _ & _ & Hq & _).
  destruct (build_record_inv _ _ _ Hq)
    as (type_list & stat_list & Ht & Htn & Hs & Hsv & _).
  exists r, data, type_list, stat_list.
  repeat split; try assumption.
  - now apply type_names_length.
  - intro Hk. apply (stat_values_keys _ _ _ k Hsv) in Hk.
    destruct Hk as [Hk | Hk]; [ now elim Hk | exact Hk ].
  - intro Hk. apply (stat_values_keys _ _ _ k Hsv). now right.
  - intros flat Hflat. unfold flat_data in Hflat. rbind_inv Hflat.
    injection Hflat as <-.
    unfold stat_columns. repeat constructor.
Qed.

(** ** C3: the request path and the cache key *)

Lemma fetch_body_state identifier st r st1 :
  fetch_pokemon_data_body repr net identifier st = (r, st1) ->
  fetch_cache st1 = fetch_cache st /\
  load_cache st1 = load_cache st /\
  exists more,
    requests st1 = (requests st ++ pokemon_url repr identifier :: more)%list.
Proof.
  rewrite fetch_body_eq. cbv zeta. intro H.
  assert (One : forall x,
    (x, logged (pokemon_url repr identifier) st) = (r, st1) ->
    fetch_cache st1 = fetch_cache st /\ load_cache st1 = load_cache st /\
    exists more,
      requests st1 = (requests st ++ pokemon_url repr identifier :: more)%list).
  { intros x E. injection E as _ <-. simpl. repeat split. now exists []. }
  assert (Two : forall x u,
    (x, logged u (logged (pokemon_url repr identifier) st)) = (r, st1) ->
    fetch_cache st1 = fetch_cache st /\ load_cache st1 = load_cache st /\
    exists more,
      requests st1 = (requests st ++ pokemon_url repr identifier :: more)%list).
  { intros x u E. injection E as _ <-. simpl. repeat split.
    exists [u]. now rewrite <- app_assoc. }
  destruct (net (requests st) _) as [e | r1]; [ now apply One in H | ].
  destruct (ok r1); [ | now apply One in H ].
  destruct (body r1) as [data | ]; [ | now apply One in H ].
  destruct (rbind (getitem data "species") _) as [u | e]; [ | now apply One in H ].
  simpl in H.
  destruct (net _ (py_str repr u)) as [e | r2]; [ now apply Two in H | ].
  destruct (ok r2); [ | now apply Two in H ].
  destruct (body r2) as [sdata | ]; [ | now apply Two in H ].
  destruct (rbind (select_description sdata) _); now apply Two in H.
Qed.

Lemma fetch_return_miss identifier st v st' :
  cached json_eqb identifier (fetch_cache st) = None ->
  fetch_pokemon_data repr net identifier st = (Return v, st') ->
  fetch_cache st' = (identifier, v) :: fetch_cache st /\
  load_cache st' = load_cache st /\
  exists more,
    requests st' = (requests st ++ pokemon_url repr identifier :: more)%list.
Proof.
  intros Hmiss. rewrite (fetch_miss _ _ Hmiss).
  destruct (fetch_pokemon_data_body repr net identifier st) as [[w | e] st1] eqn:Hb;
    [ | discriminate ].
  intro H. injection H as -> <-.
  destruct (fetch_body_state _ _ _ _ Hb) as (Hc & Hl & Hr).
  simpl. rewrite Hc. repeat split; assumption.
Qed.

(** C3 (amended).  [fetch_pokemon_data] lower-cases [str(identifier)] for the
    path of its request, so identifiers with the same lower-cased string ask
    for the same path; this is stated of identifiers whose string is ASCII.
    The cache key is the argument as it was passed, not the lower-cased
    string: a call that returns on a miss adds one entry under the argument
    itself, every other argument finds what it found before, and a later call
    whose argument, once the caller has lower-cased it, is that same string
    is answered from that entry. *)
Theorem fetch_cache_key_is_argument identifier st v st' :
  cached json_eqb identifier (fetch_cache st) = None ->
  fetch_pokemon_data repr net identifier st = (Return v, st') ->
  (is_ascii (py_str repr identifier) = true ->
   (exists more,
      requests st' =
      (requests st ++
       ("https://pokeapi.co/api/v2/pokemon/" ++ lower (py_str repr identifier))%string
       :: more)%list) /\
   (forall other,
      is_ascii (py_str repr other) = true ->
      lower (py_str repr other) = lower (py_str repr identifier) ->
      pokemon_url repr other = pokemon_url repr identifier)) /\
  (forall other,
     cached json_eqb other (fetch_cache st') =
     if json_eqb identifier other then Some (identifier, v)
     else cached json_eqb other (fetch_cache st)) /\
  (forall other, other <> identifier ->
     cached json_eqb other (fetch_cache st') =
     cached json_eqb other (fetch_cache st)) /\
  (forall s, is_ascii s = true -> JStr (lower s) = identifier ->
     fetch_pokemon_data repr net (JStr (lower s)) st' = (Return v, st')).
Proof.
  intros Hmiss H.
  destruct (fetch_return_miss _ _ _ _ Hmiss H) as (Hc & _ & Hr).
  split.
  { intros _. split; [ exact Hr | ].
    intros other _ Hsame. unfold pokemon_url. now rewrite Hsame. }
  assert (Hfind : forall other,
    cached json_eqb other (fetch_cache st') =
    if json_eqb identifier other then Some (identifier, v)
    else cached json_eqb other (fetch_cache st)).
  { intro other. unfold cached. rewrite Hc. reflexivity. }
  split; [ exact Hfind | ].
  split.
  - intros other N. rewrite Hfind, json_eqb_neq; [ reflexivity | congruence ].
  - intros s _ <-. apply (cache_data_hit _ _ _ _ _ _ (JStr (lower s)) v).
    rewrite Hfind. now rewrite json_eqb_refl.
Qed.

(** ** C4: the description *)

Lemma first_spanish_cons entry rest :
  first_spanish (entry :: rest) =
  (tag <- language_tag entry ;;
   if eq_str tag "es" then
     flavor_text <- getitem entry "flavor_text" ;;
     s <- py_replace flavor_text LF SP ;;
     Return (Some (replace FF SP s))
   else first_spanish rest)%result.
Proof.
  simpl. unfold language_tag. now destruct (getitem entry "language").
Qed.

Lemma replace_twice text :
  replace FF SP (replace LF SP text) = string_map clean text.
Proof.
  unfold replace. induction text as [ | c text IH ]; simpl; [ reflexivity | ].
  rewrite IH. f_equal. unfold clean.
  destruct (Ascii.eqb c LF) eqn:E; simpl; [ reflexivity | ].
  reflexivity.
Qed.

Lemma first_spanish_found before : forall entry after text,
  Forall other_language before ->
  language_tag entry = Return (JStr "es") ->
  getitem entry "flavor_text" = Return (JStr text) ->
  first_spanish (before ++ entry :: after) = Return (Some (string_map clean text)).
Proof.
  induction before as [ | e before IH ]; intros entry after text Hb Ht Hf.
  - simpl app. rewrite first_spanish_cons, Ht. simpl. rewrite Hf. simpl.
    now rewrite replace_twice.
  - inversion Hb as [ | ? ? (tag & Htag & Hne) Hrest ]; subst.
    simpl app. rewrite first_spanish_cons, Htag. simpl. rewrite Hne.
    now apply IH.
Qed.

Lemma first_spanish_none entries :
  Forall other_language entries -> first_spanish entries = Return None.
Proof.
  induction 1 as [ | e entries (tag & Htag & Hne) _ IH ]; [ reflexivity | ].
  rewrite first_spanish_cons, Htag. simpl. now rewrite Hne.
Qed.

Lemma string_map_length f s : String.length (string_map f s) = String.length s.
Proof. induction s as [ | c s IH ]; simpl; [ reflexivity | now rewrite IH ]. Qed.

Lemma string_map_get f s : forall n,
  String.get n (string_map f s) = option_map f (String.get n s).
Proof.
  induction s as [ | c s IH ]; intros [ | n ]; simpl; try reflexivity. apply IH.
Qed.

(** C4 (amended).  The description is the [flavor_text] of the first entry,
    in list order, whose language name is "es", each line feed and each form
    feed of it replaced by one space and every other character kept; when no
    entry has that language it is the fixed string
    "Descripción no disponible.", which is not empty. *)
Theorem description_first_spanish species_data entries :
  (es <- getitem species_data "flavor_text_entries" ;; py_iter es)%result
    = Return entries ->
  (forall before entry after text,
     entries = (before ++ entry :: after)%list ->
     Forall other_language before ->
     language_tag entry = Return (JStr "es") ->
     getitem entry "flavor_text" = Return (JStr text) ->
     exists d,
       select_description species_data = Return d /\
       String.length d = String.length text /\
       forall n, String.get n d = option_map clean (String.get n text)) /\
  (Forall other_language entries ->
   select_description species_data = Return "Descripción no disponible.") /\
  (forall c, clean c = if Ascii.eqb c LF || Ascii.eqb c FF then SP else c) /\
  "Descripción no disponible." <> "".
Proof.
  intro He. unfold select_description.
  destruct (getitem species_data "flavor_text_entries") as [es | e]; simpl in He;
    [ | discriminate He ].
  simpl. rewrite He. simpl.
  repeat split.
  - intros before entry after text -> Hb Ht Hf.
    rewrite (first_spanish_found _ _ _ _ Hb Ht Hf). simpl.
    eexists. split; [ reflexivity | ].
    split; [ apply string_map_length | apply string_map_get ].
  - intro Hall. now rewrite (first_spanish_none _ Hall).
  - discriminate.
Qed.

(** ** The loader, stage by stage *)

Lemma load_body_eq limit st :
  load_pokemon_for_analysis_body repr net limit st =
  let st1 := logged (listing_url limit) st in
  match net (requests st) (listing_url limit) with
  | Failure e => (Raise (RequestException e), st1)
  | Response r =>
      if ok r then
        match body r with
        | None => (Raise (RequestException JSONDecodeError), st1)
        | Some doc =>
            match (rs <- getitem doc "results" ;; py_iter rs)%result with
            | Raise e => (Raise e, st1)
            | Return entries => load_loop repr net entries [] st1
            end
        end
      else (Return [], st1)
  end.
Proof.
  unfold load_pokemon_for_analysis_body, bind, requests_get, lift, ret,
    response_json.
  cbv zeta.
  destruct (net (requests st) (listing_url limit)) as [e | r]; [ reflexivity | ].
  destruct (ok r); [ | reflexivity ].
  destruct (body r) as [doc | ]; [ | reflexivity ].
  destruct (getitem doc "results") as [rs | e]; simpl; [ | reflexivity ].
  destruct (py_iter rs); reflexivity.
Qed.

Lemma load_miss limit st :
  cached Z.eqb limit (load_cache st) = None ->
  load_pokemon_for_analysis repr net limit st =
  match load_pokemon_for_analysis_body repr net limit st with
  | (Return df, st') =>
      (Return df, set_load_cache ((limit, df) :: load_cache st') st')
  | (Raise e, st') => (Raise e, st')
  end.
Proof. apply cache_data_miss. Qed.

(** The loop returns exactly when every listed entry has a name, every fetch
    returns and every record flattens; its rows are then those of the records
    fetched, in listing order. *)
Lemma load_loop_rows results : forall acc st rows st',
  load_loop repr net results acc st = (Return rows, st') <->
  exists fetched rows',
    fetch_all repr net results st = (Return fetched, st') /\
    rows_of fetched = Return rows' /\
    rows = (acc ++ rows')%list.
Proof.
  induction results as [ | pokemon rest IH ]; intros acc st rows st'.
  - simpl. unfold ret. split.
    + intro H. injection H as <- <-. exists [], []. now rewrite app_nil_r.
    + intros (fetched & rows' & Hf & Hr & ->).
      injection Hf as <- <-. injection Hr as <-. now rewrite app_nil_r.
  - simpl. unfold bind, lift, ret.
    destruct (getitem pokemon "name") as [n | e].
    2:{ split; [ discriminate | intros (? & ? & H & _); discriminate H ]. }
    destruct (fetch_pokemon_data repr net n st) as [[[data | ] | e] st1].
    + destruct (flat_data data) as [flat | e] eqn:Hflat.
      * rewrite IH. split.
        -- intros (fetched & rows' & Hf & Hr & ->).
           exists (Some data :: fetched), (flat :: rows').
           rewrite Hf. simpl. rewrite Hflat, Hr. simpl.
           repeat split. now rewrite <- app_assoc.
        -- intros (fetched & rows' & Hf & Hr & ->).
           destruct (fetch_all repr net rest st1) as [[others | e] st2];
             [ | discriminate Hf ].
           injection Hf as <- <-. simpl in Hr. rewrite Hflat in Hr. simpl in Hr.
           destruct (rows_of others) as [rows'' | e] eqn:Ho; [ | discriminate Hr ].
           injection Hr as <-.
           exists others, rows''. repeat split; [ exact Ho | ].
           now rewrite <- app_assoc.
      * split; [ discriminate | ].
        intros (fetched & rows' & Hf & Hr & _).
        destruct (fetch_all repr net rest st1) as [[others | e'] st2];
          [ | discriminate Hf ].
        injection Hf as <- <-. simpl in Hr. rewrite Hflat in Hr. discriminate Hr.
    + rewrite IH. split.
      * intros (fetched & rows' & Hf & Hr & ->).
        exists (None :: fetched), rows'. rewrite Hf. simpl. now repeat split.
      * intros (fetched & rows' & Hf & Hr & ->).
        destruct (fetch_all repr net rest st1) as [[others | e] st2];
          [ | discriminate Hf ].
        injection Hf as <- <-. simpl in Hr.
        exists others, rows'. now repeat split.
    + split; [ discriminate | intros (? & ? & H & _); discriminate H ].
Qed.

Lemma fetch_all_length results : forall st fetched st',
  fetch_all repr net results st = (Return fetched, st') ->
  length fetched = length results.
Proof.
  induction results as [ | pokemon rest IH ]; intros st fetched st' H.
  - injection H as <- <-. reflexivity.
  - simpl in H. unfold bind, lift, ret in H.
    destruct (getitem pokemon "name") as [n | e]; [ | discriminate H ].
    destruct (fetch_pokemon_data repr net n st) as [[data | e] st1];
      [ | discriminate H ].
    destruct (fetch_all repr net rest st1) as [[others | e] st2] eqn:Ho;
      [ | discriminate H ].
    injection H as <- <-. simpl. f_equal. exact (IH _ _ _ Ho).
Qed.

Lemma rows_of_length fetched : forall rows,
  rows_of fetched = Return rows ->
  (length rows + count_absent fetched = length fetched)%nat.
Proof.
  unfold count_absent.
  induction fetched as [ | [data | ] fetched IH ]; simpl; intros rows H.
  - now injection H as <-.
  - destruct (flat_data data); simpl in H; [ | discriminate H ].
    destruct (rows_of fetched) as [rows' | e]; [ | discriminate H ].
    injection H as <-. simpl. f_equal. now apply IH.
  - rewrite Nat.add_succ_r. f_equal. now apply IH.
Qed.

(** ** C5: the rows of the population *)

(** C5 (amended).  When the listing request is answered with a list of
    entries, the loader calls the fetcher once per entry, in listing order,
    and returns, as soon as every call returns and every record flattens, the
    rows of the records fetched in that order: as many rows as entries, less
    the entries whose fetch gave [None].  So there are at most as many rows as
    listed entries, at most [limit] when the service lists no more than it was
    asked for; and with an empty listing, for [limit] 0 as for any other, the
    dataset is empty and the listing request is the only one issued. *)
Theorem load_rows limit st r doc entries :
  cached Z.eqb limit (load_cache st) = None ->
  net (requests st) (listing_url limit) = Response r ->
  ok r = true ->
  body r = Some doc ->
  (rs <- getitem doc "results" ;; py_iter rs)%result = Return entries ->
  (forall df st',
     load_pokemon_for_analysis repr net limit st = (Return df, st') ->
     exists fetched st1,
       fetch_all repr net entries (logged (listing_url limit) st)
         = (Return fetched, st1) /\
       rows_of fetched = Return df /\
       length fetched = length entries /\
       (length df + count_absent fetched = length entries)%nat /\
       (length df <= length entries)%nat /\
       (Z.of_nat (length entries) <= limit -> Z.of_nat (length df) <= limit)) /\
  (forall fetched st1 df,
     fetch_all repr net entries (logged (listing_url limit) st)
       = (Return fetched, st1) ->
     rows_of fetched = Return df ->
     load_pokemon_for_analysis repr net limit st =
     (Return df, set_load_cache ((limit, df) :: load_cache st1) st1)) /\
  (entries = [] ->
   load_pokemon_for_analysis repr net limit st =
   (Return [],
    set_load_cache ((limit, []) :: load_cache st) (logged (listing_url limit) st))).
Proof.
  intros Hmiss Hn Ho Hb He.
  assert (Hbody : load_pokemon_for_analysis_body repr net limit st =
                  load_loop repr net entries [] (logged (listing_url limit) st)).
  { rewrite load_body_eq. cbv zeta. now rewrite Hn, Ho, Hb, He. }
  rewrite (load_miss _ _ Hmiss), Hbody.
  split; [ | split ].
  - intros df st' H.
    destruct (load_loop repr net entries [] (logged (listing_url limit) st))
      as [[rows | e] st1] eqn:Hloop; [ | discriminate H ].
    injection H as -> <-.
    apply load_loop_rows in Hloop.
    destruct Hloop as (fetched & rows' & Hf & Hr & ->). simpl.
    exists fetched, st1.
    pose proof (fetch_all_length _ _ _ _ Hf) as Hlen.
    pose proof (rows_of_length _ _ Hr) as Hcount.
    repeat split; try assumption; lia.
  - intros fetched st1 df Hf Hr.
    assert (Hloop : load_loop repr net entries [] (logged (listing_url limit) st)
                    = (Return df, st1))
      by (apply load_loop_rows; exists fetched, df; now repeat split).
    now rewrite Hloop.
  - intros ->. reflexivity.
Qed.

(** ** C6 and C9: the listing request *)

(** C6 (amended).  When the listing request is answered with an error
    status (4xx or 5xx, such as 500: the statuses for which [response.ok] is
    false), the loader raises nothing and returns the empty dataset; the
    listing request is the only request it has issued.  Every other status
    counts as success and the body is read: a body that is not JSON makes the
    load raise, and a listing is gone through as under 200.  Nor is the empty
    dataset the one failure the caller can meet: a transport failure of the
    listing request leaves the loader as the exception [requests] raised. *)
Theorem load_error_status_empty limit st :
  cached Z.eqb limit (load_cache st) = None ->
  (forall r,
     net (requests st) (listing_url limit) = Response r ->
     400 <= status_code r < 600 ->
     load_pokemon_for_analysis repr net limit st =
     (Return [],
      set_load_cache ((limit, []) :: load_cache st)
        (logged (listing_url limit) st))) /\
  (forall r,
     net (requests st) (listing_url limit) = Response r ->
     ~ 400 <= status_code r < 600 ->
     (body r = None ->
      load_pokemon_for_analysis repr net limit st =
      (Raise (RequestException JSONDecodeError), logged (listing_url limit) st)) /\
     (forall doc entries,
        body r = Some doc ->
        (rs <- getitem doc "results" ;; py_iter rs)%result = Return entries ->
        load_pokemon_for_analysis_body repr net limit st =
        load_loop repr net entries [] (logged (listing_url limit) st))) /\
  (forall e,
     net (requests st) (listing_url limit) = Failure e ->
     load_pokemon_for_analysis repr net limit st =
     (Raise (RequestException e), logged (listing_url limit) st)).
Proof.
  intro Hmiss. rewrite (load_miss _ _ Hmiss), load_body_eq. cbv zeta.
  split; [ | split ].
  - intros r Hn Hs. apply ok_false in Hs. now rewrite Hn, Hs.
  - intros r Hn Hs.
    assert (Ho : ok r = true).
    { destruct (ok r) eqn:E; [ reflexivity | ]. now apply ok_false in E. }
    rewrite Hn, Ho. split.
    + intros ->. reflexivity.
    + intros doc entries -> He. now rewrite He.
  - intros e Hn. now rewrite Hn.
Qed.


(** ** C7: the second call *)

Lemma cache_data_again {K V} (eqb : K -> K -> bool) table store
    (f f' : K -> M V) k st v st1 :
  (forall x, eqb x x = true) ->
  (forall c s, table (store c s) = c) ->
  cache_data eqb table store f k st = (Return v, st1) ->
  cache_data eqb table store f' k st1 = (Return v, st1).
Proof.
  intros Hrefl Hstore. unfold cache_data at 1.
  destruct (cached _ _ (table st)) as [[k' w] | ] eqn:Hfind.
  - intro H. injection H as -> <-.
    unfold cache_data. now rewrite Hfind.
  - destruct (f k st) as [[w | e] st'']; [ | discriminate ].
    intro H. injection H as -> <-.
    unfold cache_data. rewrite Hstore. simpl. now rewrite Hrefl.
Qed.

Lemma fetch_load_cache identifier st r st1 :
  fetch_pokemon_data repr net identifier st = (r, st1) ->
  load_cache st1 = load_cache st.
Proof.
  unfold fetch_pokemon_data, cache_data.
  destruct (cached _ _ (fetch_cache st)) as [[k w] | ].
  - intro H. now injection H as _ <-.
  - destruct (fetch_pokemon_data_body repr net identifier st) as [[w | e] st2] eqn:Hb;
      intro H; injection H as _ <-;
      destruct (fetch_body_state _ _ _ _ Hb) as (_ & Hl & _); exact Hl.
Qed.

Lemma fetch_raise_stores_nothing identifier st e st1 :
  fetch_pokemon_data repr net identifier st = (Raise e, st1) ->
  fetch_cache st1 = fetch_cache st.
Proof.
  unfold fetch_pokemon_data, cache_data.
  destruct (cached _ _ (fetch_cache st)) as [[k w] | ]; [ discriminate | ].
  destruct (fetch_pokemon_data_body repr net identifier st) as [[w | e'] st2] eqn:Hb;
    [ discriminate | ].
  intro H. injection H as _ <-.
  now destruct (fetch_body_state _ _ _ _ Hb) as (Hc & _ & _).
Qed.

Lemma load_loop_load_cache results : forall acc st r st1,
  load_loop repr net results acc st = (r, st1) ->
  load_cache st1 = load_cache st.
Proof.
  induction results as [ | pokemon rest IH ]; intros acc st r st1; simpl.
  - unfold ret. intro H. now injection H as _ <-.
  - unfold bind, lift.
    destruct (getitem pokemon "name") as [n | e];
      [ | intro H; now injection H as _ <- ].
    destruct (fetch_pokemon_data repr net n st) as [[[data | ] | e] st2] eqn:Hf;
      apply fetch_load_cache in Hf; rewrite <- Hf.
    + destruct (flat_data data) as [flat | e]; [ apply IH | ].
      intro H. now injection H as _ <-.
    + apply IH.
    + intro H. now injection H as _ <-.
Qed.

Lemma load_raise_stores_nothing limit st e st1 :
  load_pokemon_for_analysis repr net limit st = (Raise e, st1) ->
  load_cache st1 = load_cache st.
Proof.
  unfold load_pokemon_for_analysis, cache_data.
  destruct (cached _ _ (load_cache st)) as [[k w] | ]; [ discriminate | ].
  rewrite load_body_eq. cbv zeta.
  destruct (load_pokemon_for_analysis_body repr net limit st) as [[w | e'] st2] eqn:Hb.
  all: rewrite load_body_eq in Hb; cbv zeta in Hb; rewrite Hb.
  - discriminate.
  - intro H. injection H as _ <-.
    destruct (net (requests st) (listing_url limit)) as [e0 | r];
      [ now injection Hb as _ <- | ].
    destruct (ok r); [ | discriminate Hb ].
    destruct (body r) as [doc | ]; [ | now injection Hb as _ <- ].
    destruct (rbind (getitem doc "results") _) as [entries | e0];
      [ | now injection Hb as _ <- ].
    now apply load_loop_load_cache in Hb.
Qed.

(** C7 (amended).  Once a call of [fetch_pokemon_data] has returned, a
    record or [None], a second call with the same identifier returns the same
    value from the cache and leaves the state as it was, so it issues no
    request, whatever the service would answer by then; and the same holds of
    [load_pokemon_for_analysis] and its limit.  A call that raised has left
    the cache of its function as it found it. *)
Theorem second_call_is_cache_hit (net' : network) :
  (forall identifier st v st1,
     fetch_pokemon_data repr net identifier st = (Return v, st1) ->
     fetch_pokemon_data repr net' identifier st1 = (Return v, st1)) /\
  (forall limit st df st1,
     load_pokemon_for_analysis repr net limit st = (Return df, st1) ->
     load_pokemon_for_analysis repr net' limit st1 = (Return df, st1)) /\
  (forall identifier st e st1,
     fetch_pokemon_data repr net identifier st = (Raise e, st1) ->
     fetch_cache st1 = fetch_cache st) /\
  (forall limit st e st1,
     load_pokemon_for_analysis repr net limit st = (Raise e, st1) ->
     load_cache st1 = load_cache st).
Proof.
  repeat split.
  - intros identifier st v st1.
    apply cache_data_again; [ apply json_eqb_refl | reflexivity ].
  - intros limit st df st1.
    apply cache_data_again; [ apply Z.eqb_refl | reflexivity ].
  - apply fetch_raise_stores_nothing.
  - apply load_raise_stores_nothing.
Qed.

(** ** C10: the primary type of a row *)

(** C10.  Flattening reads the first type of a record without a guard: it
    gives a row whose primary type is that first type when the record has a
    type, and raises [IndexError] when it has none; and the loader, on an
    entry whose fetch returns a record without a type, raises that
    [IndexError] where the record was fetched instead of skipping the entry. *)
Theorem flat_data_first_type :
  (forall p t ts,
     types p = t :: ts ->
     exists flat, flat_data p = Return flat /\ Tipo_Primario flat = t) /\
  (forall p, types p = [] -> flat_data p = Raise IndexError) /\
  (forall pokemon rest acc st n p st1,
     getitem pokemon "name" = Return n ->
     fetch_pokemon_data repr net n st = (Return (Some p), st1) ->
     types p = [] ->
     load_loop repr net (pokemon :: rest) acc st = (Raise IndexError, st1)).
Proof.
  repeat split.
  - intros p t ts Ht. unfold flat_data. rewrite Ht. simpl.
    eexists. split; reflexivity.
  - intros p Ht. unfold flat_data. now rewrite Ht.
  - intros pokemon rest acc st n p st1 Hn Hf Ht.
    simpl. unfold bind, lift. rewrite Hn, Hf.
    unfold flat_data. now rewrite Ht.
Qed.

(** ** C8: height and weight *)

(** C8.  The height and the weight of a fetched record are the numbers of the
    entity document, decimetres and hectograms, converted to floating point
    and divided by 10.0, and its id, capitalized name and type names are the
    document's.  For a document with id 25, name "pikachu", the one type
    "electric", height 4 and weight 60 the record has id 25, name "Pikachu",
    types ["electric"], height 0.4 and weight 6.0. *)
Theorem fetched_height_weight identifier st p st' r data i n tys h w :
  cached json_eqb identifier (fetch_cache st) = None ->
  fetch_pokemon_data repr net identifier st = (Return (Some p), st') ->
  net (requests st) (pokemon_url repr identifier) = Response r ->
  body r = Some data ->
  getitem data "id" = Return i ->
  getitem data "name" = Return (JStr n) ->
  (ts <- getitem data "types" ;; ts <- py_iter ts ;; type_names ts)%result
    = Return tys ->
  getitem data "height" = Return (JInt h) ->
  getitem data "weight" = Return (JInt w) ->
  (id p = i /\ name p = capitalize n /\ types p = tys /\
   exists fh fw,
     float_of_Z h = Return fh /\ float_of_Z w = Return fw /\
     height p = (fh / 10)%float /\ weight p = (fw / 10)%float) /\
  (i = JInt 25 -> n = "pikachu" -> tys = [JStr "electric"] -> h = 4 -> w = 60 ->
   id p = JInt 25 /\ name p = "Pikachu" /\ types p = [JStr "electric"] /\
   height p = 0.4%float /\ weight p = 6%float).
Proof.
  intros Hmiss H Hn Hb Hi Hname Htys Hh Hw.
  destruct (fetch_record _ _ _ _ Hmiss H) as (st1 & Hbody & _).
  destruct (fetch_body_record _ _ _ _ Hbody)
    as (r' & data' & u & r2 & sdata & Hn' & _ & Hb' & _ & _ & _ & _ & _ & Hq & _).
  rewrite Hn in Hn'. injection Hn' as <-.
  rewrite Hb in Hb'. injection Hb' as <-.
  destruct (build_record_inv _ _ _ Hq)
    as (type_list & stat_list & Ht & Htn & _ & _ & Hid & Hnm & Hhe & Hwe & _).
  rewrite Hi in Hid. injection Hid as Hid.
  rewrite Hname in Hnm. simpl in Hnm. injection Hnm as Hnm.
  assert (Htypes : types p = tys).
  { destruct (getitem data "types") as [x | e]; simpl in Ht, Htys;
      [ | discriminate Ht ].
    rewrite Ht in Htys. simpl in Htys. rewrite Htn in Htys. now injection Htys. }
  rewrite Hh in Hhe. rewrite Hw in Hwe. simpl in Hhe, Hwe.
  destruct (float_of_Z h) as [fh | e] eqn:Hfh; simpl in Hhe; [ | discriminate Hhe ].
  destruct (float_of_Z w) as [fw | e] eqn:Hfw; simpl in Hwe; [ | discriminate Hwe ].
  injection Hhe as Hhe. injection Hwe as Hwe.
  split.
  - repeat split; try congruence.
    exists fh, fw. repeat split; congruence.
  - intros -> -> -> -> ->.
    vm_compute in Hfh. injection Hfh as <-.
    vm_compute in Hfw. injection Hfw as <-.
    rewrite <- Hid, <- Hnm, Htypes, <- Hhe, <- Hwe.
    repeat split.
Qed.

(** * Further properties *)

(** ** The requests of a fetch *)

(** X1.  A call of [fetch_pokemon_data] issues no request when its argument
    is cached and otherwise one or two, never more: the request for the
    entity, and after an entity document that names its species URL the
    request for that URL.  Requests issued earlier stay in the log. *)
Theorem fetch_requests identifier st :
  let st' := snd (fetch_pokemon_data repr net identifier st) in
  (cached json_eqb identifier (fetch_cache st) <> None /\ st' = st) \/
  (cached json_eqb identifier (fetch_cache st) = None /\
   (requests st' = (requests st ++ [pokemon_url repr identifier])%list \/
    exists r data u,
      net (requests st) (pokemon_url repr identifier) = Response r /\
      ok r = true /\ body r = Some data /\
      (species <- getitem data "species" ;; getitem species "url")%result
        = Return u /\
      requests st' =
      (requests st ++ [pokemon_url repr identifier; py_str repr u])%list)).
Proof.
  cbv zeta. unfold fetch_pokemon_data, cache_data.
  destruct (cached json_eqb identifier (fetch_cache st)) as [[k v] | ] eqn:Hc.
  - left. split; [ discriminate | reflexivity ].
  - right. split; [ reflexivity | ].
    rewrite fetch_body_eq. cbv zeta.
    destruct (net (requests st) (pokemon_url repr identifier)) as [e | r] eqn:Hn;
      [ now left | ].
    destruct (ok r) eqn:Ho; [ | now left ].
    destruct (body r) as [data | ] eqn:Hb; [ | now left ].
    destruct (rbind (getitem data "species") _) as [u | e] eqn:Hu; [ | now left ].
    right. exists r, data, u. repeat split; try assumption.
    assert (Hlog : requests (logged (py_str repr u) (logged (pokemon_url repr identifier) st))
                   = (requests st ++ [pokemon_url repr identifier; py_str repr u])%list)
      by (simpl; now rewrite <- app_assoc).
    destruct (net _ (py_str repr u)) as [e | r2]; [ exact Hlog | ].
    destruct (ok r2); [ | exact Hlog ].
    destruct (body r2) as [sdata | ]; [ | exact Hlog ].
    destruct (rbind (select_description sdata) _); exact Hlog.
Qed.

(** ** What a call does to the state *)

Lemma fetch_body_log identifier st r st1 :
  fetch_pokemon_data_body repr net identifier st = (r, st1) ->
  exists more,
    requests st1 = (requests st ++ more)%list /\ (length more <= 2)%nat.
Proof.
  rewrite fetch_body_eq. cbv zeta. intro H.
  assert (One : forall x,
    (x, logged (pokemon_url repr identifier) st) = (r, st1) ->
    exists more,
      requests st1 = (requests st ++ more)%list /\ (length more <= 2)%nat).
  { intros x E. injection E as _ <-. exists [pokemon_url repr identifier].
    split; [ reflexivity | simpl; lia ]. }
  assert (Two : forall x u,
    (x, logged u (logged (pokemon_url repr identifier) st)) = (r, st1) ->
    exists more,
      requests st1 = (requests st ++ more)%list /\ (length more <= 2)%nat).
  { intros x u E. injection E as _ <-. exists [pokemon_url repr identifier; u].
    split; [ simpl; now rewrite <- app_assoc | simpl; lia ]. }
  destruct (net (requests st) _) as [e | r1]; [ now apply One in H | ].
  destruct (ok r1); [ | now apply One in H ].
  destruct (body r1) as [data | ]; [ | now apply One in H ].
  destruct (rbind (getitem data "species") _) as [u | e]; [ | now apply One in H ].
  simpl in H.
  destruct (net _ (py_str repr u)) as [e | r2]; [ now apply Two in H | ].
  destruct (ok r2); [ | now apply Two in H ].
  destruct (body r2) as [sdata | ]; [ | now apply Two in H ].
  destruct (rbind (select_description sdata) _); now apply Two in H.
Qed.

Lemma cached_cons {K V} (eqb : K -> K -> bool) (k : K) (v : V)
    (table : list (K * V)) (k0 : K) (e : K * V) :
  (forall a b, eqb a b = true -> a = b) ->
  cached eqb k table = None ->
  cached eqb k0 table = Some e ->
  cached eqb k0 ((k, v) :: table) = Some e.
Proof.
  intros Heq Hmiss Hhit. unfold cached in *. simpl.
  destruct (eqb k k0) eqn:E; [ | exact Hhit ].
  apply Heq in E. subst k0. congruence.
Qed.

(** A fetch leaves the loader's cache alone, keeps every entry of its own
    cache and adds at most two requests to the log. *)
Lemma fetch_step identifier st r st' :
  fetch_pokemon_data repr net identifier st = (r, st') ->
  load_cache st' = load_cache st /\
  (forall k e, cached json_eqb k (fetch_cache st) = Some e ->
               cached json_eqb k (fetch_cache st') = Some e) /\
  exists more,
    requests st' = (requests st ++ more)%list /\ (length more <= 2)%nat.
Proof.
  intro H. split; [ exact (fetch_load_cache _ _ _ _ H) | ].
  revert H. unfold fetch_pokemon_data, cache_data.
  destruct (cached json_eqb identifier (fetch_cache st)) as [[k v] | ] eqn:Hc.
  - intro H. injection H as _ <-. split; [ auto | ].
    exists []. split; [ now rewrite app_nil_r | simpl; lia ].
  - destruct (fetch_pokemon_data_body repr net identifier st) as [[v | e] st1] eqn:Hb;
      intro H; injection H as _ <-;
      destruct (fetch_body_state _ _ _ _ Hb) as (Hf & _ & _);
      pose proof (fetch_body_log _ _ _ _ Hb) as Hlog; simpl.
    + split; [ | exact Hlog ].
      intros k0 e0 Hk. rewrite Hf.
      apply cached_cons; [ apply json_eqb_eq | exact Hc | exact Hk ].
    + split; [ | exact Hlog ]. intros k0 e0 Hk. now rewrite Hf.
Qed.

Lemma load_loop_step results : forall acc st r st',
  load_loop repr net results acc st = (r, st') ->
  load_cache st' = load_cache st /\
  (forall k e, cached json_eqb k (fetch_cache st) = Some e ->
               cached json_eqb k (fetch_cache st') = Some e) /\
  exists more,
    requests st' = (requests st ++ more)%list /\
    (length more <= 2 * length results)%nat.
Proof.
  induction results as [ | pokemon rest IH ]; intros acc st r st'; simpl.
  - unfold ret. intro H. injection H as _ <-. repeat split; [ auto | ].
    exists []. split; [ now rewrite app_nil_r | simpl; lia ].
  - unfold bind, lift.
    assert (Stay : forall x : result (list row),
      (x, st) = (r, st') ->
      load_cache st' = load_cache st /\
      (forall k e, cached json_eqb k (fetch_cache st) = Some e ->
                   cached json_eqb k (fetch_cache st') = Some e) /\
      exists more,
        requests st' = (requests st ++ more)%list /\
        (length more <= 2 * S (length rest))%nat).
    { intros x E. injection E as _ <-. repeat split; [ auto | ].
      exists []. split; [ now rewrite app_nil_r | simpl; lia ]. }
    destruct (getitem pokemon "name") as [n | e]; [ | apply Stay ].
    clear Stay.
    destruct (fetch_pokemon_data repr net n st) as [[data | e] st1] eqn:Hf;
      destruct (fetch_step _ _ _ _ Hf) as (Hl & Hk & more & Hm & Hlen).
    + assert (Next : forall acc',
        load_loop repr net rest acc' st1 = (r, st') ->
        load_cache st' = load_cache st /\
        (forall k e, cached json_eqb k (fetch_cache st) = Some e ->
                     cached json_eqb k (fetch_cache st') = Some e) /\
        exists more0,
          requests st' = (requests st ++ more0)%list /\
          (length more0 <= 2 * S (length rest))%nat).
      { intros acc' H. destruct (IH _ _ _ _ H) as (Hl' & Hk' & more' & Hm' & Hlen').
        split; [ congruence | ]. split; [ auto | ].
        exists (more ++ more')%list. split.
        - now rewrite Hm', Hm, <- app_assoc.
        - rewrite length_app. lia. }
      destruct data as [data | ]; [ | apply Next ].
      destruct (flat_data data) as [flat | e]; [ apply Next | ].
      intro H. injection H as _ <-. repeat split; [ assumption .. | ].
      exists more. split; [ exact Hm | lia ].
    + intro H. injection H as _ <-. repeat split; [ assumption .. | ].
      exists more. split; [ exact Hm | lia ].
Qed.

Lemma load_body_step limit st r st' :
  load_pokemon_for_analysis_body repr net limit st = (r, st') ->
  load_cache st' = load_cache st /\
  (forall k e, cached json_eqb k (fetch_cache st) = Some e ->
               cached json_eqb k (fetch_cache st') = Some e) /\
  exists rest,
    requests st' = (requests st ++ listing_url limit :: rest)%list /\
    (length rest <=
     2 * length (listed (net (requests st) (listing_url limit))))%nat.
Proof.
  rewrite load_body_eq. cbv zeta. unfold listed.
  assert (Stay : forall x : result DataFrame,
    (x, logged (listing_url limit) st) = (r, st') ->
    forall n,
    load_cache st' = load_cache st /\
    (forall k e, cached json_eqb k (fetch_cache st) = Some e ->
                 cached json_eqb k (fetch_cache st') = Some e) /\
    exists rest,
      requests st' = (requests st ++ listing_url limit :: rest)%list /\
      (length rest <= n)%nat).
  { intros x E n. injection E as _ <-. repeat split; [ auto | ].
    exists []. split; [ reflexivity | simpl; lia ]. }
  destruct (net (requests st) (listing_url limit)) as [e | r1];
    [ intro H; exact (Stay _ H _) | ].
  destruct (ok r1); [ | intro H; exact (Stay _ H _) ].
  destruct (body r1) as [doc | ]; [ | intro H; exact (Stay _ H _) ].
  destruct (rbind (getitem doc "results") _) as [entries | e];
    [ | intro H; exact (Stay _ H _) ].
  intro H. destruct (load_loop_step _ _ _ _ _ H) as (Hl & Hk & more & Hm & Hlen).
  repeat split; [ exact Hl | exact Hk | ].
  exists more. split; [ | exact Hlen ].
  rewrite Hm. simpl. now rewrite <- app_assoc.
Qed.

Lemma load_step limit st r st' :
  load_pokemon_for_analysis repr net limit st = (r, st') ->
  (forall k e, cached json_eqb k (fetch_cache st) = Some e ->
               cached json_eqb k (fetch_cache st') = Some e) /\
  (forall n e, cached Z.eqb n (load_cache st) = Some e ->
               cached Z.eqb n (load_cache st') = Some e) /\
  exists more,
    requests st' = (requests st ++ more)%list /\
    (cached Z.eqb limit (load_cache st) <> None -> more = []) /\
    (cached Z.eqb limit (load_cache st) = None ->
     exists rest,
       more = listing_url limit :: rest /\
       (length rest <=
        2 * length (listed (net (requests st) (listing_url limit))))%nat).
Proof.
  unfold load_pokemon_for_analysis, cache_data.
  destruct (cached Z.eqb limit (load_cache st)) as [[k v] | ] eqn:Hc.
  - intro H. injection H as _ <-. repeat split; [ auto .. | ].
    exists []. repeat split; [ now rewrite app_nil_r | discriminate ].
  - destruct (load_pokemon_for_analysis_body repr net limit st) as [[v | e] st1] eqn:Hb;
      intro H; injection H as _ <-;
      destruct (load_body_step _ _ _ _ Hb) as (Hl & Hk & rest & Hm & Hlen); simpl.
    + repeat split; [ exact Hk | | ].
      * intros n e Hn. rewrite Hl.
        apply cached_cons; [ apply Z.eqb_eq | exact Hc | exact Hn ].
      * exists (listing_url limit :: rest). repeat split; [ exact Hm | congruence | ].
        intros _. exists rest. split; [ reflexivity | exact Hlen ].
    + repeat split; [ exact Hk | | ].
      * intros n e' Hn. now rewrite Hl.
      * exists (listing_url limit :: rest). repeat split; [ exact Hm | congruence | ].
        intros _. exists rest. split; [ reflexivity | exact Hlen ].
Qed.

(** X2.  A call of [load_pokemon_for_analysis] issues no request when its
    limit is cached; otherwise it issues the listing request and then at most
    two requests for each entry the listing holds, so at most 1 + 2n requests
    for n entries.  Requests issued earlier stay in the log. *)
Theorem load_requests limit st :
  let st' := snd (load_pokemon_for_analysis repr net limit st) in
  exists more,
    requests st' = (requests st ++ more)%list /\
    (cached Z.eqb limit (load_cache st) <> None -> more = []) /\
    (cached Z.eqb limit (load_cache st) = None ->
     exists rest,
       more = listing_url limit :: rest /\
       (length rest <=
        2 * length (listed (net (requests st) (listing_url limit))))%nat).
Proof.
  cbv zeta.
  destruct (load_pokemon_for_analysis repr net limit st) as [r st'] eqn:H.
  exact (proj2 (proj2 (load_step _ _ _ _ H))).
Qed.

(** X3.  The two caches only grow: an entry that either cache holds is still
    there, with the same value, after any call of [fetch_pokemon_data] or of
    [load_pokemon_for_analysis], whether the call returns or raises. *)
Theorem cache_entries_persist st :
  (forall k e, cached json_eqb k (fetch_cache st) = Some e ->
     (forall identifier,
        cached json_eqb k
          (fetch_cache (snd (fetch_pokemon_data repr net identifier st))) = Some e) /\
     (forall limit,
        cached json_eqb k
          (fetch_cache (snd (load_pokemon_for_analysis repr net limit st))) = Some e)) /\
  (forall n e, cached Z.eqb n (load_cache st) = Some e ->
     (forall identifier,
        cached Z.eqb n
          (load_cache (snd (fetch_pokemon_data repr net identifier st))) = Some e) /\
     (forall limit,
        cached Z.eqb n
          (load_cache (snd (load_pokemon_for_analysis repr net limit st))) = Some e)).
Proof.
  split.
  - intros k e Hk. split.
    + intro identifier.
      destruct (fetch_pokemon_data repr net identifier st) as [r st'] eqn:H.
      now apply (fetch_step _ _ _ _ H).
    + intro limit.
      destruct (load_pokemon_for_analysis repr net limit st) as [r st'] eqn:H.
      now apply (load_step _ _ _ _ H).
  - intros n e Hn. split.
    + intro identifier.
      destruct (fetch_pokemon_data repr net identifier st) as [r st'] eqn:H.
      simpl. now rewrite (fetch_load_cache _ _ _ _ H).
    + intro limit.
      destruct (load_pokemon_for_analysis repr net limit st) as [r st'] eqn:H.
      now apply (load_step _ _ _ _ H).
Qed.

(** ** Failures that are remembered *)

(** X4.  A fetch whose entity request fails (transport error, 4xx or 5xx
    status, or a body that is not JSON) stores its [None]: every later fetch
    of the same identifier returns [None] without a request, also when the
    service would answer by then. *)
Theorem failed_fetch_is_remembered (net' : network) identifier st :
  cached json_eqb identifier (fetch_cache st) = None ->
  request_failure (net (requests st) (pokemon_url repr identifier)) ->
  let st' := snd (fetch_pokemon_data repr net identifier st) in
  fetch_pokemon_data repr net identifier st = (Return None, st') /\
  fetch_pokemon_data repr net' identifier st' = (Return None, st').
Proof.
  intros Hmiss F. cbv zeta.
  rewrite (fetch_miss _ _ Hmiss), (fetch_body_primary_failure _ _ F). simpl.
  split; [ reflexivity | ].
  apply (cache_data_hit _ _ _ _ _ _ identifier None).
  unfold cached. simpl. now rewrite json_eqb_refl.
Qed.

(** X5.  A load whose listing request is answered with an error status
    stores its empty dataset: every later load with the same limit returns
    the empty dataset without a request, also when the service would answer
    by then. *)
Theorem failed_listing_is_remembered (net' : network) limit st r :
  cached Z.eqb limit (load_cache st) = None ->
  net (requests st) (listing_url limit) = Response r ->
  ok r = false ->
  let st' := snd (load_pokemon_for_analysis repr net limit st) in
  load_pokemon_for_analysis repr net limit st = (Return [], st') /\
  load_pokemon_for_analysis repr net' limit st' = (Return [], st').
Proof.
  intros Hmiss Hn Ho. cbv zeta.
  rewrite (load_miss _ _ Hmiss), load_body_eq. cbv zeta. rewrite Hn, Ho. simpl.
  split; [ reflexivity | ].
  apply (cache_data_hit _ _ _ _ _ _ limit []).
  unfold cached. simpl. now rewrite Z.eqb_refl.
Qed.

(** ** The listing document *)

(** X7.  The loader reads the listing document unprotected: under a status
    that is no error, a listing body that is not JSON makes the load raise
    the [JSONDecodeError] of [requests] (which a fetch would have turned into
    [None]), and a document without a [results] entry, or one that is no
    dictionary or whose [results] cannot be iterated, makes it raise
    [KeyError] or [TypeError].  Nothing is stored and the listing request is
    the only one issued. *)
Theorem load_listing_document_errors limit st r :
  cached Z.eqb limit (load_cache st) = None ->
  net (requests st) (listing_url limit) = Response r ->
  ok r = true ->
  (body r = None ->
   load_pokemon_for_analysis repr net limit st =
   (Raise (RequestException JSONDecodeError), logged (listing_url limit) st)) /\
  (forall doc e,
     body r = Some doc ->
     (rs <- getitem doc "results" ;; py_iter rs)%result = Raise e ->
     load_pokemon_for_analysis repr net limit st =
     (Raise e, logged (listing_url limit) st) /\
     (e = KeyError \/ e = TypeError)).
Proof.
  intros Hmiss Hn Ho.
  rewrite (load_miss _ _ Hmiss), load_body_eq. cbv zeta. rewrite Hn, Ho.
  split.
  - intros ->. reflexivity.
  - intros doc e -> He. rewrite He. split; [ reflexivity | ].
    destruct doc; simpl in He; try (injection He as <-; now right).
    destruct (assoc "results" d) as [rs | ]; simpl in He;
      [ | injection He as <-; now left ].
    destruct rs; simpl in He; try discriminate He; injection He as <-; now right.
Qed.

(** ** A stat named twice *)

Lemma stat_values_app l1 : forall l2 acc,
  stat_values (l1 ++ l2) acc =
  (acc' <- stat_values l1 acc ;; stat_values l2 acc')%result.
Proof.
  induction l1 as [ | s l1 IH ]; intros l2 acc; simpl; [ reflexivity | ].
  destruct (getitem s "stat") as [stat | e]; simpl; [ | reflexivity ].
  destruct (getitem stat "name") as [k | e]; simpl; [ | reflexivity ].
  destruct (getitem s "base_stat") as [v | e]; simpl; [ | reflexivity ].
  destruct (dict_setitem acc k v) as [acc' | e]; simpl; [ apply IH | reflexivity ].
Qed.

Lemma stat_values_other l (k : string) : forall acc d,
  stat_values l acc = Return d ->
  Forall (fun s => stat_name s <> Return (JStr k)) l ->
  dict_lookup d (JStr k) = dict_lookup acc (JStr k).
Proof.
  induction l as [ | s l IH ]; simpl; intros acc d H Hall.
  - now injection H as <-.
  - inversion Hall as [ | ? ? Hs Hrest ]; subst. unfold stat_name in Hs.
    destruct (getitem s "stat") as [stat | ]; simpl in H, Hs; [ | discriminate H ].
    destruct (getitem stat "name") as [key | ]; simpl in H; [ | discriminate H ].
    destruct (getitem s "base_stat") as [v | ]; simpl in H; [ | discriminate H ].
    unfold dict_setitem in H. destruct (hashable key); simpl in H; [ | discriminate H ].
    rewrite (IH _ _ H Hrest), dict_lookup_store.
    destruct (key_eqb key (JStr k)) eqn:E; [ | reflexivity ].
    apply key_eqb_str in E. now subst key.
Qed.

Lemma stat_values_last before s after (k : string) v acc d :
  stat_values (before ++ s :: after) acc = Return d ->
  stat_name s = Return (JStr k) ->
  getitem s "base_stat" = Return v ->
  Forall (fun s' => stat_name s' <> Return (JStr k)) after ->
  dict_lookup d (JStr k) = Some v.
Proof.
  intros H Hs Hv Hafter. rewrite stat_values_app in H.
  destruct (stat_values before acc) as [acc1 | e]; simpl in H; [ | discriminate H ].
  unfold stat_name in Hs.
  destruct (getitem s "stat") as [stat | ]; simpl in H, Hs; [ | discriminate H ].
  rewrite Hs, Hv in H. simpl in H.
  rewrite (stat_values_other _ _ _ _ H Hafter), dict_lookup_store.
  simpl. now rewrite String.eqb_refl.
Qed.

(** X11.  When the [stats] array of the entity document names a stat more
    than once, the record holds for it the [base_stat] of the last entry
    with that name, and that is the value its column gets in the row. *)
Theorem repeated_stat_last_wins identifier st p st' r data
    before s after (k : string) v :
  cached json_eqb identifier (fetch_cache st) = None ->
  fetch_pokemon_data repr net identifier st = (Return (Some p), st') ->
  net (requests st) (pokemon_url repr identifier) = Response r ->
  body r = Some data ->
  (ss <- getitem data "stats" ;; py_iter ss)%result
    = Return (before ++ s :: after)%list ->
  stat_name s = Return (JStr k) ->
  getitem s "base_stat" = Return v ->
  Forall (fun s' => stat_name s' <> Return (JStr k)) after ->
  dict_lookup (stats p) (JStr k) = Some v /\
  forall flat, flat_data p = Return flat ->
    Forall (fun column => fst column = k -> snd column flat = v) stat_columns.
Proof.
  intros Hmiss H Hn Hb Hss Hs Hv Hafter.
  destruct (fetch_record _ _ _ _ Hmiss H) as (st1 & Hbody & _).
  destruct (fetch_body_record _ _ _ _ Hbody)
    as (r' & data' & u & r2 & sdata & Hn' & _ & Hb' & _ & _ & _ & _ & _ & Hq & _).
  rewrite Hn in Hn'. injection Hn' as <-.
  rewrite Hb in Hb'. injection Hb' as <-.
  destruct (build_record_inv _ _ _ Hq)
    as (type_list & stat_list & _ & _ & Hsl & Hsv & _).
  rewrite Hss in Hsl. injection Hsl as <-.
  pose proof (stat_values_last _ _ _ _ _ _ _ Hsv Hs Hv Hafter) as Hk.
  split; [ exact Hk | ].
  intros flat Hflat. unfold flat_data in Hflat.
  destruct (first_type (types p)); simpl in Hflat; [ | discriminate Hflat ].
  injection Hflat as <-.
  unfold stat_columns.
  repeat constructor; simpl; intros <-; unfold dict_get; now rewrite Hk.
Qed.

(** ** One bad entry *)

Lemma fetch_cached_after identifier st v st' :
  fetch_pokemon_data repr net identifier st = (Return v, st') ->
  cached json_eqb identifier (fetch_cache st') = Some (identifier, v).
Proof.
  unfold fetch_pokemon_data, cache_data.
  destruct (cached json_eqb identifier (fetch_cache st)) as [[k w] | ] eqn:Hc.
  - intro H. injection H as -> <-. rewrite Hc.
    unfold cached in Hc. apply find_some in Hc. destruct Hc as [_ Hk].
    simpl in Hk. apply json_eqb_eq in Hk. now subst k.
  - destruct (fetch_pokemon_data_body repr net identifier st) as [[w | e] st1];
      [ | discriminate ].
    intro H. injection H as -> <-. unfold cached. simpl.
    now rewrite json_eqb_refl.
Qed.

Lemma fetch_all_keeps entries : forall st r st',
  fetch_all repr net entries st = (r, st') ->
  load_cache st' = load_cache st /\
  forall k e, cached json_eqb k (fetch_cache st) = Some e ->
              cached json_eqb k (fetch_cache st') = Some e.
Proof.
  induction entries as [ | entry rest IH ]; intros st r st'; simpl.
  - unfold ret. intro H. injection H as _ <-. split; auto.
  - unfold bind, lift, ret.
    destruct (getitem entry "name") as [n | e];
      [ | intro H; injection H as _ <-; split; auto ].
    destruct (fetch_pokemon_data repr net n st) as [[data | e] st1] eqn:Hf;
      destruct (fetch_step _ _ _ _ Hf) as (Hl & Hk & _).
    + destruct (fetch_all repr net rest st1) as [[others | e] st2] eqn:Ho;
        destruct (IH _ _ _ Ho) as (Hl' & Hk');
        intro H; injection H as _ <-; (split; [ congruence | auto ]).
    + intro H. injection H as _ <-. split; assumption.
Qed.

Lemma held_later st st' entries fetched :
  (forall k e, cached json_eqb k (fetch_cache st) = Some e ->
               cached json_eqb k (fetch_cache st') = Some e) ->
  Forall2 (held st) entries fetched -> Forall2 (held st') entries fetched.
Proof.
  intros Hk. induction 1 as [ | entry data entries fetched (n & Hn & Hc) _ IH ];
    constructor; [ | exact IH ].
  exists n. split; [ exact Hn | now apply Hk ].
Qed.

Lemma fetch_all_held entries : forall st fetched st',
  fetch_all repr net entries st = (Return fetched, st') ->
  Forall2 (held st') entries fetched.
Proof.
  induction entries as [ | entry rest IH ]; intros st fetched st'; simpl.
  - unfold ret. intro H. injection H as <- _. constructor.
  - unfold bind, lift, ret.
    destruct (getitem entry "name") as [n | e] eqn:Hn; [ | discriminate ].
    destruct (fetch_pokemon_data repr net n st) as [[data | e] st1] eqn:Hf;
      [ | discriminate ].
    destruct (fetch_all repr net rest st1) as [[others | e] st2] eqn:Ho;
      [ | discriminate ].
    intro H. injection H as <- <-.
    constructor; [ | exact (IH _ _ _ Ho) ].
    exists n. split; [ exact Hn | ].
    apply (proj2 (fetch_all_keeps _ _ _ _ Ho)).
    exact (fetch_cached_after _ _ _ _ Hf).
Qed.

Lemma load_loop_app before : forall rest acc st fetched rows st1,
  fetch_all repr net before st = (Return fetched, st1) ->
  rows_of fetched = Return rows ->
  load_loop repr net (before ++ rest) acc st =
  load_loop repr net rest (acc ++ rows) st1.
Proof.
  induction before as [ | entry before IH ]; intros rest acc st fetched rows st1; simpl.
  - unfold ret. intros H Hr. injection H as <- <-. injection Hr as <-.
    now rewrite app_nil_r.
  - unfold bind, lift, ret.
    destruct (getitem entry "name") as [n | e]; [ | discriminate ].
    destruct (fetch_pokemon_data repr net n st) as [[data | e] st2]; [ | discriminate ].
    destruct (fetch_all repr net before st2) as [[others | e] st3] eqn:Ho;
      [ | discriminate ].
    intros H Hr. injection H as <- <-.
    destruct data as [data | ]; simpl in Hr.
    + destruct (flat_data data) as [flat | e]; simpl in Hr; [ | discriminate Hr ].
      destruct (rows_of others) as [rows' | e] eqn:Hrows; [ | discriminate Hr ].
      injection Hr as <-.
      rewrite (IH rest (acc ++ [flat])%list _ _ _ _ Ho Hrows).
      now rewrite <- app_assoc.
    + exact (IH rest acc _ _ _ _ Ho Hr).
Qed.

(** X6.  A load is all or nothing.  When the entries before some listed
    entry have been fetched and flattened, and that entry has no name or its
    fetch raises, the load raises the same exception: the rows gathered so
    far are dropped and nothing is stored for the limit, while what was
    fetched for the earlier entries stays in the fetcher's cache. *)
Theorem load_aborts_on_one_entry limit st r doc before entry after
    fetched rows st1 e st2 :
  cached Z.eqb limit (load_cache st) = None ->
  net (requests st) (listing_url limit) = Response r ->
  ok r = true ->
  body r = Some doc ->
  (rs <- getitem doc "results" ;; py_iter rs)%result
    = Return (before ++ entry :: after)%list ->
  fetch_all repr net before (logged (listing_url limit) st)
    = (Return fetched, st1) ->
  rows_of fetched = Return rows ->
  (n <- lift (getitem entry "name") ;; fetch_pokemon_data repr net n)%prog st1
    = (Raise e, st2) ->
  load_pokemon_for_analysis repr net limit st = (Raise e, st2) /\
  load_cache st2 = load_cache st /\
  Forall2 (held st2) before fetched.
Proof.
  intros Hmiss Hn Ho Hb He Hf Hrows Hbad.
  assert (Hloop : load_loop repr net (before ++ entry :: after) []
                    (logged (listing_url limit) st) = (Raise e, st2)).
  { rewrite (load_loop_app _ _ _ _ _ _ _ Hf Hrows). simpl.
    unfold bind, lift in Hbad |- *.
    destruct (getitem entry "name") as [n | e0];
      [ | injection Hbad as -> ->; reflexivity ].
    destruct (fetch_pokemon_data repr net n st1) as [[data | e0] st3];
      [ discriminate Hbad | injection Hbad as -> ->; reflexivity ]. }
  split; [ | split ].
  - rewrite (load_miss _ _ Hmiss), load_body_eq. cbv zeta.
    now rewrite Hn, Ho, Hb, He, Hloop.
  - destruct (load_loop_step _ _ _ _ _ Hloop) as (Hl & _). exact Hl.
  - apply (held_later st1); [ | exact (fetch_all_held _ _ _ _ Hf) ].
    unfold bind, lift in Hbad.
    destruct (getitem entry "name") as [n | e0];
      [ | injection Hbad as _ <-; auto ].
    intros k e0 Hk. now apply (fetch_step _ _ _ _ Hbad).
Qed.

(** ** The dataset and the comparator *)

Lemma load_returned limit st r doc entries df st' :
  cached Z.eqb limit (load_cache st) = None ->
  net (requests st) (listing_url limit) = Response r ->
  ok r = true ->
  body r = Some doc ->
  (rs <- getitem doc "results" ;; py_iter rs)%result = Return entries ->
  load_pokemon_for_analysis repr net limit st = (Return df, st') ->
  exists fetched st1,
    fetch_all repr net entries (logged (listing_url limit) st)
      = (Return fetched, st1) /\
    rows_of fetched = Return df /\
    st' = set_load_cache ((limit, df) :: load_cache st1) st1.
Proof.
  intros Hmiss Hn Ho Hb He.
  rewrite (load_miss _ _ Hmiss), load_body_eq. cbv zeta.
  rewrite Hn, Ho, Hb, He.
  destruct (load_loop repr net entries [] (logged (listing_url limit) st))
    as [[rows | e] st1] eqn:Hloop; [ | discriminate ].
  intro H. injection H as -> <-.
  apply load_loop_rows in Hloop.
  destruct Hloop as (fetched & rows' & Hf & Hr & ->).
  exists fetched, st1. now repeat split.
Qed.

Lemma rows_of_in fetched : forall rows flat,
  rows_of fetched = Return rows ->
  In flat rows ->
  exists p, In (Some p) fetched /\ flat_data p = Return flat.
Proof.
  induction fetched as [ | [data | ] fetched IH ]; simpl; intros rows flat H Hin.
  - injection H as <-. destruct Hin.
  - destruct (flat_data data) as [flat' | e] eqn:Hflat; simpl in H;
      [ | discriminate H ].
    destruct (rows_of fetched) as [rows' | e]; [ | discriminate H ].
    injection H as <-. destruct Hin as [<- | Hin].
    + exists data. split; [ now left | exact Hflat ].
    + destruct (IH _ _ eq_refl Hin) as (p & Hp & Hf).
      exists p. split; [ now right | exact Hf ].
  - destruct (IH _ _ H Hin) as (p & Hp & Hf).
    exists p. split; [ now right | exact Hf ].
Qed.

Lemma flat_data_Nombre p flat : flat_data p = Return flat -> Nombre flat = name p.
Proof.
  unfold flat_data. destruct (first_type (types p)); simpl; [ | discriminate ].
  intro H. now injection H as <-.
Qed.

Lemma held_in st entries fetched data :
  Forall2 (held st) entries fetched ->
  In data fetched ->
  exists entry, In entry entries /\ held st entry data.
Proof.
  induction 1 as [ | entry d entries fetched Hh _ IH ]; intros Hin;
    [ destruct Hin | ].
  destruct Hin as [<- | Hin].
  - exists entry. split; [ now left | exact Hh ].
  - destruct (IH Hin) as (entry' & Hin' & Hh').
    exists entry'. split; [ now right | exact Hh' ].
Qed.

Lemma rows_of_absent fetched :
  forallb absent fetched = true -> rows_of fetched = Return [].
Proof.
  induction fetched as [ | [data | ] fetched IH ]; simpl;
    [ reflexivity | discriminate | exact IH ].
Qed.

(** X8.  The names the comparator offers are the [Nombre] column of the
    dataset.  When the listing named each entity by the lower-case form of
    the name its record carries, the two fetches the comparator makes for
    any two of those names are answered from the cache the load has filled:
    they return the records of the two rows and issue no request. *)
Theorem comparator_served_from_cache (net' : network)
    limit st r doc entries df st' names :
  cached Z.eqb limit (load_cache st) = None ->
  net (requests st) (listing_url limit) = Response r ->
  ok r = true ->
  body r = Some doc ->
  (rs <- getitem doc "results" ;; py_iter rs)%result = Return entries ->
  load_pokemon_for_analysis repr net limit st = (Return df, st') ->
  (forall entry n p,
     In entry entries ->
     getitem entry "name" = Return n ->
     cached json_eqb n (fetch_cache st') = Some (n, Some p) ->
     n = JStr (lower (name p))) ->
  pokemon_list df = Return names ->
  forall pokemon1_name pokemon2_name,
    In pokemon1_name names ->
    In pokemon2_name names ->
    exists data1 data2,
      compare_fetch repr net' pokemon1_name pokemon2_name st'
        = (Return (Some data1, Some data2), st') /\
      name data1 = pokemon1_name /\ name data2 = pokemon2_name.
Proof.
  intros Hmiss Hn Ho Hb He Hload Hnames Hlist name1 name2 Hin1 Hin2.
  destruct (load_returned _ _ _ _ _ _ _ Hmiss Hn Ho Hb He Hload)
    as (fetched & st1 & Hf & Hrows & ->).
  pose proof (fetch_all_held _ _ _ _ Hf) as Hheld.
  assert (Hit : forall nm, In nm names ->
    exists p, name p = nm /\
      forall st2, fetch_cache st2 = fetch_cache st1 ->
        fetch_pokemon_data repr net' (JStr (lower nm)) st2 = (Return (Some p), st2)).
  { intros nm Hin. unfold pokemon_list, column in Hlist.
    destruct df as [ | row0 df ]; [ discriminate Hlist | ].
    injection Hlist as <-.
    change (In nm (map Nombre (row0 :: df))) in Hin. apply in_map_iff in Hin.
    destruct Hin as (flat & <- & Hflat).
    destruct (rows_of_in _ _ _ Hrows Hflat) as (p & Hp & Hfp).
    destruct (held_in _ _ _ _ Hheld Hp) as (entry & Hentry & n & Hname & Hc).
    exists p. split; [ symmetry; now apply flat_data_Nombre | ].
    intros st2 Hst2.
    assert (n = JStr (lower (name p))) as -> by (apply (Hnames entry); assumption).
    rewrite (flat_data_Nombre _ _ Hfp).
    apply (cache_data_hit _ _ _ _ _ _ (JStr (lower (name p))) (Some p)).
    now rewrite Hst2. }
  destruct (Hit _ Hin1) as (p1 & Hp1 & Hfetch1).
  destruct (Hit _ Hin2) as (p2 & Hp2 & Hfetch2).
  exists p1, p2. split; [ | now split ].
  unfold compare_fetch, bind, ret.
  rewrite Hfetch1 by reflexivity. now rewrite Hfetch2.
Qed.

(** X9.  The comparator reads the [Nombre] column of the dataset, and a
    dataset without a row has no column: the read raises [KeyError] exactly
    when the load returned no row, as it does when the listing request was
    answered with an error status and when no listed entry was fetched with
    success; with a row, it gives the names of the rows in order. *)
Theorem comparator_needs_a_row limit st df st' :
  cached Z.eqb limit (load_cache st) = None ->
  load_pokemon_for_analysis repr net limit st = (Return df, st') ->
  (pokemon_list df = Raise KeyError <-> df = []) /\
  (df <> [] -> pokemon_list df = Return (map Nombre df)) /\
  (forall r,
     net (requests st) (listing_url limit) = Response r ->
     ok r = false ->
     pokemon_list df = Raise KeyError) /\
  (forall r doc entries fetched st1,
     net (requests st) (listing_url limit) = Response r ->
     ok r = true ->
     body r = Some doc ->
     (rs <- getitem doc "results" ;; py_iter rs)%result = Return entries ->
     fetch_all repr net entries (logged (listing_url limit) st)
       = (Return fetched, st1) ->
     forallb absent fetched = true ->
     pokemon_list df = Raise KeyError).
Proof.
  intros Hmiss Hload.
  split; [ | split; [ | split ] ].
  - unfold pokemon_list, column. destruct df; split; try discriminate; auto.
  - unfold pokemon_list, column. destruct df; [ now intros [] | reflexivity ].
  - intros r Hn Ho. revert Hload.
    rewrite (load_miss _ _ Hmiss), load_body_eq. cbv zeta. rewrite Hn, Ho.
    intro H. now injection H as <- _.
  - intros r doc entries fetched st1 Hn Ho Hb He Hf Habs.
    destruct (load_returned _ _ _ _ _ _ _ Hmiss Hn Ho Hb He Hload)
      as (fetched' & st1' & Hf' & Hrows & _).
    rewrite Hf in Hf'. injection Hf' as <- _.
    rewrite (rows_of_absent _ Habs) in Hrows. now injection Hrows as <-.
Qed.

(** ** The lookup of a run and the next run *)

Lemma fetch_miss_requests identifier st :
  cached json_eqb identifier (fetch_cache st) = None ->
  exists more,
    requests (snd (fetch_pokemon_data repr net identifier st)) =
    (requests st ++ pokemon_url repr identifier :: more)%list.
Proof.
  intro Hmiss. rewrite (fetch_miss _ _ Hmiss).
  destruct (fetch_pokemon_data_body repr net identifier st) as [[v | e] st1] eqn:Hb;
    destruct (fetch_body_state _ _ _ _ Hb) as (_ & _ & Hreq); exact Hreq.
Qed.

(** X10.  A run whose lookup succeeds leaves the record's [id] in the
    session, whatever was searched for.  The next run, with no new search,
    therefore fetches under that id: when the id is not a cached argument
    (as after a search by name) it asks the service for the entity again,
    under the path of the id.  Once a run has fetched under the id a record
    with that same id, every later run without a new search returns that
    record from the cache and leaves the session as it is. *)
Theorem rerun_looks_up_the_id session search_term clicked st current p st1 :
  pokedex_lookup repr net session search_term clicked st
    = (Return (current, Some p), st1) ->
  current = id p /\
  (forall text, searched (Some current) text false = id p) /\
  (cached json_eqb (id p) (fetch_cache st1) = None ->
   forall text,
   exists more,
     requests (snd (pokedex_lookup repr net (Some current) text false st1)) =
     (requests st1 ++ pokemon_url repr (id p) :: more)%list) /\
  (forall text q st2,
     pokedex_lookup repr net (Some current) text false st1
       = (Return (current, Some q), st2) ->
     forall (net' : network) text',
       pokedex_lookup repr net' (Some current) text' false st2
         = (Return (current, Some q), st2)).
Proof.
  unfold pokedex_lookup, bind, ret.
  destruct (fetch_pokemon_data repr net (searched session search_term clicked) st)
    as [[[p0 | ] | e] st0]; try discriminate.
  intro H. injection H as <- <- <-.
  split; [ reflexivity | ].
  split; [ reflexivity | ].
  split.
  - intros Hmiss text. simpl searched.
    destruct (fetch_miss_requests _ _ Hmiss) as (more & Hmore).
    exists more. rewrite <- Hmore.
    now destruct (fetch_pokemon_data repr net (id p0) st0) as [[[q | ] | e] st2].
  - intros text q st2. simpl searched.
    destruct (fetch_pokemon_data repr net (id p0) st0) as [[[q0 | ] | e] st3] eqn:Hf;
      try discriminate.
    intro H. injection H as Hid <- <-.
    intros net' text'.
    assert (Hagain : fetch_pokemon_data repr net' (id p0) st3
                     = (Return (Some q0), st3))
      by exact (cache_data_again json_eqb fetch_cache set_fetch_cache _
                  (fetch_pokemon_data_body repr net') _ _ _ _ json_eqb_refl
                  (fun _ _ => eq_refl) Hf).
    simpl searched. rewrite Hagain. now rewrite Hid.
Qed.

(** ** What a load leaves for later calls *)

Lemma load_loop_hits results : forall acc st,
  Forall (fun entry => exists n e,
            getitem entry "name" = Return n /\
            cached json_eqb n (fetch_cache st) = Some e) results ->
  snd (load_loop repr net results acc st) = st.
Proof.
  induction results as [ | entry rest IH ]; intros acc st Hall; [ reflexivity | ].
  inversion Hall as [ | ? ? (n & [k v] & Hn & Hc) Hrest ]; subst.
  simpl. unfold bind, lift. rewrite Hn.
  assert (Hf : fetch_pokemon_data repr net n st = (Return v, st))
    by exact (cache_data_hit _ _ _ _ _ _ _ _ Hc).
  rewrite Hf.
  destruct v as [data | ]; [ | now apply IH ].
  destruct (flat_data data); [ now apply IH | reflexivity ].
Qed.

(** X13.  Entries whose names the fetcher has already been called with cost
    a load nothing: when every listed name is a cached argument, the listing
    request is the only request of the load and the fetcher's cache is left
    as it was. *)
Theorem load_reuses_fetched_names limit st r doc entries :
  cached Z.eqb limit (load_cache st) = None ->
  net (requests st) (listing_url limit) = Response r ->
  ok r = true ->
  body r = Some doc ->
  (rs <- getitem doc "results" ;; py_iter rs)%result = Return entries ->
  Forall (fun entry => exists n e,
            getitem entry "name" = Return n /\
            cached json_eqb n (fetch_cache st) = Some e) entries ->
  let st' := snd (load_pokemon_for_analysis repr net limit st) in
  requests st' = (requests st ++ [listing_url limit])%list /\
  fetch_cache st' = fetch_cache st.
Proof.
  intros Hmiss Hn Ho Hb He Hall. cbv zeta.
  rewrite (load_miss _ _ Hmiss), load_body_eq. cbv zeta.
  rewrite Hn, Ho, Hb, He.
  pose proof (load_loop_hits entries [] (logged (listing_url limit) st) Hall) as Hst.
  destruct (load_loop repr net entries [] (logged (listing_url limit) st))
    as [[rows | e] st1]; simpl in Hst; subst st1; split; reflexivity.
Qed.

Lemma fetch_new_key identifier st r st' k :
  fetch_pokemon_data repr net identifier st = (r, st') ->
  k <> identifier ->
  cached json_eqb k (fetch_cache st) = None ->
  cached json_eqb k (fetch_cache st') = None.
Proof.
  unfold fetch_pokemon_data, cache_data.
  destruct (cached json_eqb identifier (fetch_cache st)) as [[k0 v] | ].
  - intro H. now injection H as _ <-.
  - destruct (fetch_pokemon_data_body repr net identifier st) as [[v | e] st1] eqn:Hb;
      intro H; injection H as _ <-;
      destruct (fetch_body_state _ _ _ _ Hb) as (Hf & _ & _);
      intros Hne Hk; simpl; [ | now rewrite Hf ].
    unfold cached. simpl. rewrite json_eqb_neq by congruence.
    rewrite Hf. exact Hk.
Qed.

Lemma load_loop_new_keys results k : forall acc st r st',
  load_loop repr net results acc st = (r, st') ->
  (forall entry, In entry results -> getitem entry "name" <> Return k) ->
  cached json_eqb k (fetch_cache st) = None ->
  cached json_eqb k (fetch_cache st') = None.
Proof.
  induction results as [ | entry rest IH ]; intros acc st r st'; simpl.
  - unfold ret. intro H. now injection H as _ <-.
  - unfold bind, lift. intros H Hnames Hk.
    assert (Hentry : getitem entry "name" <> Return k) by (apply Hnames; now left).
    assert (Hrest : forall entry', In entry' rest -> getitem entry' "name" <> Return k)
      by (intros entry' Hin; apply Hnames; now right).
    destruct (getitem entry "name") as [n | e];
      [ | injection H as _ <-; exact Hk ].
    assert (Hne : k <> n) by congruence.
    destruct (fetch_pokemon_data repr net n st) as [[data | e] st1] eqn:Hf;
      pose proof (fetch_new_key _ _ _ _ _ Hf Hne Hk) as Hk1;
      [ | injection H as _ <-; exact Hk1 ].
    destruct data as [data | ]; [ | exact (IH _ _ _ _ H Hrest Hk1) ].
    destruct (flat_data data); [ exact (IH _ _ _ _ H Hrest Hk1) | ].
    injection H as _ <-. exact Hk1.
Qed.

(** X14.  The load does not prepare the first lookup.  A new session looks
    up the identifier 1, a number, while the load calls the fetcher with the
    names of the listing: unless the listing names an entry 1, the load
    leaves 1 uncached, and the first run of the Pokedex tab asks the service
    for entity 1 itself. *)
Theorem first_lookup_is_not_preloaded limit st r doc entries text :
  cached Z.eqb limit (load_cache st) = None ->
  cached json_eqb (JInt 1) (fetch_cache st) = None ->
  net (requests st) (listing_url limit) = Response r ->
  ok r = true ->
  body r = Some doc ->
  (rs <- getitem doc "results" ;; py_iter rs)%result = Return entries ->
  (forall entry, In entry entries -> getitem entry "name" <> Return (JInt 1)) ->
  let st' := snd (load_pokemon_for_analysis repr net limit st) in
  cached json_eqb (JInt 1) (fetch_cache st') = None /\
  searched None text false = JInt 1 /\
  exists more,
    requests (snd (pokedex_lookup repr net None text false st')) =
    (requests st' ++ "https://pokeapi.co/api/v2/pokemon/1" :: more)%list.
Proof.
  intros Hmiss Hk Hn Ho Hb He Hnames. cbv zeta.
  assert (Hafter : cached json_eqb (JInt 1)
                     (fetch_cache (snd (load_pokemon_for_analysis repr net limit st)))
                   = None).
  { rewrite (load_miss _ _ Hmiss), load_body_eq. cbv zeta.
    rewrite Hn, Ho, Hb, He.
    destruct (load_loop repr net entries [] (logged (listing_url limit) st))
      as [[rows | e] st1] eqn:Hloop;
      exact (load_loop_new_keys _ _ _ _ _ _ Hloop Hnames Hk). }
  split; [ exact Hafter | ]. split; [ reflexivity | ].
  destruct (fetch_miss_requests _ _ Hafter) as (more & Hmore).
  exists more. unfold pokedex_lookup, bind, ret. simpl searched.
  change "https://pokeapi.co/api/v2/pokemon/1" with (pokemon_url repr (JInt 1)).
  rewrite <- Hmore.
  now destruct (fetch_pokemon_data repr net (JInt 1) _) as [[[q | ] | e] st2].
Qed.

End Properties.

(** ** Examples *)



(** The record of "pikachu" against its entity document. *)
Lemma fetched_types_and_stats_pikachu :
  exists p r data type_list stat_list,
    fst (fetch_pokemon_data any_repr pokeapi (JStr "pikachu") init) = Return (Some p) /\
    pokeapi [] pikachu_url = Response r /\
    body r = Some data /\
    (ts <- getitem data "types" ;; py_iter ts)%result = Return type_list /\
    (ss <- getitem data "stats" ;; py_iter ss)%result = Return stat_list /\
    type_names type_list = Return (types p) /\
    length (types p) = length type_list /\
    (forall k : string,
       dict_lookup (stats p) (JStr k) <> None <->
       exists s, In s stat_list /\ stat_name s = Return (JStr k)) /\
    (forall flat, flat_data p = Return flat ->
       Forall (fun column =>
                 snd column flat =
                 match dict_lookup (stats p) (JStr (fst column)) with
                 | Some v => v
                 | None => JInt 0
                 end) stat_columns).
Proof.
  edestruct (fetched_types_and_stats any_repr pokeapi (JStr "pikachu") init)
    as (r & data & tl & sl & W); [ reflexivity | vm_compute; reflexivity | ].
  eexists. exists r, data, tl, sl. split; [ vm_compute; reflexivity | exact W ].
Defined.

(** C2 as stated fails: when the entity document has no type and no stat,
    the record has none either, and no key is defaulted. *)
Lemma fetched_without_types :
  exists p st',
    fetch_pokemon_data any_repr typeless (JStr "pikachu") init
      = (Return (Some p), st') /\
    types p = [] /\ stats p = [] /\ dict_lookup (stats p) (JStr "hp") = None.
Proof. eexists; eexists. vm_compute. repeat split. Qed.

(** After "pikachu" is fetched, "Pikachu" asks for the same path, and the
    lower-cased "PIKACHU" is the same argument and is answered from the
    cache. *)
Lemma fetch_cache_key_is_argument_pikachu :
  exists v st',
    fetch_pokemon_data any_repr pokeapi (JStr "pikachu") init = (Return v, st') /\
    (exists more, requests st' = pikachu_url :: more) /\
    pokemon_url any_repr (JStr "Pikachu") = pokemon_url any_repr (JStr "pikachu") /\
    (forall other, other <> JStr "pikachu" ->
       cached json_eqb other (fetch_cache st') = None) /\
    fetch_pokemon_data any_repr pokeapi (JStr (lower "PIKACHU")) st' = (Return v, st').
Proof.
  eexists; eexists.
  split; [ vm_compute; reflexivity | ].
  edestruct (fetch_cache_key_is_argument any_repr pokeapi (JStr "pikachu") init)
    as (W1 & _ & W4 & W5); [ reflexivity | vm_compute; reflexivity | ].
  destruct (W1 eq_refl) as (W1a & W1b).
  split; [ exact W1a | ].
  split; [ apply (W1b (JStr "Pikachu")); reflexivity | ].
  split; [ exact W4 | ].
  apply (W5 "PIKACHU"); reflexivity.
Defined.

(** C3 as stated fails: "Pikachu" and "pikachu" lower-case to one string and
    ask for one path, yet they are two cache keys, so the second call is a
    miss and issues both requests again. *)
Lemma fetch_cache_key_not_lowered :
  let st1 := snd (fetch_pokemon_data any_repr pokeapi (JStr "Pikachu") init) in
  let st2 := snd (fetch_pokemon_data any_repr pokeapi (JStr "pikachu") st1) in
  lower "Pikachu" = lower "pikachu" /\
  requests st1 = [pikachu_url; species_url] /\
  requests st2 = [pikachu_url; species_url; pikachu_url; species_url] /\
  map fst (fetch_cache st2) = [JStr "pikachu"; JStr "Pikachu"].
Proof. vm_compute. repeat split. Qed.

(** The second entry is the first Spanish one; its line feed and form feed
    become spaces. *)
Lemma description_first_spanish_pikachu :
  exists d,
    select_description pikachu_species = Return d /\
    String.length d =
    String.length ("Raton" ++ String LF "electrico" ++ String FF "amarillo") /\
    forall n, String.get n d =
              option_map clean
                (String.get n ("Raton" ++ String LF "electrico" ++ String FF "amarillo")).
Proof.
  apply (proj1 (description_first_spanish pikachu_species
                  [flavor "en" "Mouse";
                   flavor "es" ("Raton" ++ String LF "electrico" ++ String FF "amarillo");
                   flavor "es" "Otro"] eq_refl)
           [flavor "en" "Mouse"]
           (flavor "es" ("Raton" ++ String LF "electrico" ++ String FF "amarillo"))
           [flavor "es" "Otro"]
           ("Raton" ++ String LF "electrico" ++ String FF "amarillo")).
  - reflexivity.
  - constructor; [ | constructor ]. exists (JStr "en"). split; reflexivity.
  - reflexivity.
  - reflexivity.
Defined.

(** C4 as stated fails on the fallback: with no Spanish entry the description
    is the program's Spanish sentence, not "description unavailable". *)
Lemma fallback_is_not_english :
  exists p st',
    fetch_pokemon_data any_repr english_only (JStr "pikachu") init
      = (Return (Some p), st') /\
    description p = "Descripción no disponible." /\
    description p <> "description unavailable".
Proof. eexists; eexists. vm_compute. repeat split. discriminate. Qed.

(** Three entries listed, the second unknown: two rows, in listing order. *)
Lemma load_rows_three_listed :
  exists df st' fetched st1,
    load_pokemon_for_analysis any_repr three_listed 3 init = (Return df, st') /\
    fetch_all any_repr three_listed
      [JDict [("name", JStr "pikachu")]; JDict [("name", JStr "missingno")];
       JDict [("name", JStr "raichu")]]
      (logged (listing_url 3) init) = (Return fetched, st1) /\
    rows_of fetched = Return df /\
    (length df + count_absent fetched = 3)%nat /\
    map absent fetched = [false; true; false] /\
    map Nombre df = ["Pikachu"; "Raichu"].
Proof.
  edestruct (proj1 (load_rows any_repr three_listed 3 init
                      (mkResponse 200 (Some (listing ["pikachu"; "missingno"; "raichu"])))
                      (listing ["pikachu"; "missingno"; "raichu"])
                      [JDict [("name", JStr "pikachu")]; JDict [("name", JStr "missingno")];
                       JDict [("name", JStr "raichu")]]
                      eq_refl eq_refl eq_refl eq_refl eq_refl))
    as (fetched & st1 & Hf & Hr & _ & Hc & _); [ vm_compute; reflexivity | ].
  eexists; eexists; exists fetched, st1.
  split; [ vm_compute; reflexivity | ].
  split; [ exact Hf | ].
  split; [ exact Hr | ].
  split; [ exact Hc | ].
  vm_compute in Hf. injection Hf as <- _.
  split; reflexivity.
Defined.

(** C5 as stated fails where the listing does not have [limit] entries:
    with limit 0 and one entry listed the loader fetches it and returns one
    row; with limit 1 and two entries listed it returns two rows; with limit
    5 and two entries listed, both fetched, it returns two rows and not
    five. *)
Lemma load_rows_not_limit :
  let zero := load_pokemon_for_analysis any_repr unmetered 0 init in
  let one := load_pokemon_for_analysis any_repr unmetered 1 init in
  let five := load_pokemon_for_analysis any_repr unmetered 5 init in
  (exists df, fst zero = Return df /\ length df = 1%nat) /\
  requests (snd zero) =
    ["https://pokeapi.co/api/v2/pokemon?limit=0"; pikachu_url; species_url] /\
  (exists df, fst one = Return df /\ length df = 2%nat) /\
  (exists df, fst five = Return df /\ length df = 2%nat) /\
  map snd (fetch_cache (snd five)) <> [] /\
  forallb (fun v => negb (absent v)) (map snd (fetch_cache (snd five))) = true.
Proof.
  vm_compute. repeat split; try (eexists; split; reflexivity). discriminate.
Qed.

(** Status 500 on the listing: the empty dataset, one request. *)
Lemma load_error_status_empty_500 :
  load_pokemon_for_analysis any_repr server_error 151 init =
  (Return [],
   mkState ["https://pokeapi.co/api/v2/pokemon?limit=151"] [] [(151, [])]).
Proof.
  apply (proj1 (load_error_status_empty any_repr server_error 151 init eq_refl)
           (mkResponse 500 None)).
  - reflexivity.
  - simpl. lia.
Defined.

(** C6 as stated fails.  Status 300 is no success, yet a listing sent under
    it is loaded and the dataset has its row; under 304 without a body the
    load raises; and with the service unreachable the load raises, so that
    the empty dataset is not the one failure the caller can meet. *)
Lemma load_failures_besides_empty :
  (exists df,
     fst (load_pokemon_for_analysis any_repr off_status 1 init) = Return df /\
     length df = 1%nat) /\
  fst (load_pokemon_for_analysis any_repr off_status 2 init)
    = Raise (RequestException JSONDecodeError) /\
  fst (load_pokemon_for_analysis any_repr unreachable 151 init)
    = Raise (RequestException ConnectionError).
Proof.
  split; [ eexists; split; [ vm_compute; reflexivity | reflexivity ] | ].
  split; reflexivity.
Qed.


(** The second call is answered although the service has become
    unreachable, and the two requests of the first call stay the only ones. *)
Lemma second_call_is_cache_hit_pikachu :
  exists v st1,
    fetch_pokemon_data any_repr pokeapi (JStr "pikachu") init = (Return v, st1) /\
    fetch_pokemon_data any_repr unreachable (JStr "pikachu") st1 = (Return v, st1) /\
    requests st1 = [pikachu_url; species_url].
Proof.
  eexists; eexists.
  split; [ vm_compute; reflexivity | ].
  split; [ | reflexivity ].
  apply (proj1 (second_call_is_cache_hit any_repr pokeapi unreachable)
           (JStr "pikachu") init).
  vm_compute. reflexivity.
Defined.

(** C7 as stated fails when the first call raises: nothing is stored, and
    the second call with the same identifier issues its request again. *)
Lemma second_call_after_exception :
  let first := fetch_pokemon_data any_repr no_species_field (JStr "pikachu") init in
  let second := fetch_pokemon_data any_repr no_species_field (JStr "pikachu") (snd first) in
  fst first = Raise KeyError /\
  requests (snd first) = [pikachu_url] /\
  fetch_cache (snd first) = [] /\
  requests (snd second) = [pikachu_url; pikachu_url].
Proof. vm_compute. repeat split. Qed.

(** A listed entity without a type: the loader raises [IndexError]. *)
Lemma flat_data_first_type_typeless :
  load_loop any_repr typeless_listed [JDict [("name", JStr "pikachu")]] []
    (logged (listing_url 1) init)
  = (Raise IndexError,
     snd (fetch_pokemon_data any_repr typeless_listed (JStr "pikachu")
            (logged (listing_url 1) init))) /\
  fst (load_pokemon_for_analysis any_repr typeless_listed 1 init) = Raise IndexError.
Proof.
  split; [ | reflexivity ].
  eapply (proj2 (proj2 (flat_data_first_type any_repr typeless_listed))).
  - reflexivity.
  - vm_compute. reflexivity.
  - reflexivity.
Defined.

(** The scenario of "pikachu": height 4 and weight 60 give 0.4 and 6.0. *)
Lemma fetched_height_weight_pikachu :
  exists p st',
    fetch_pokemon_data any_repr pokeapi (JStr "pikachu") init
      = (Return (Some p), st') /\
    getitem pikachu "height" = Return (JInt 4) /\
    getitem pikachu "weight" = Return (JInt 60) /\
    id p = JInt 25 /\ name p = "Pikachu" /\ types p = [JStr "electric"] /\
    height p = 0.4%float /\ weight p = 6%float.
Proof.
  eexists; eexists.
  split; [ vm_compute; reflexivity | ].
  split; [ reflexivity | ].
  split; [ reflexivity | ].
  eapply (proj2 (fetched_height_weight any_repr pokeapi (JStr "pikachu") init _ _
                   (mkResponse 200 (Some pikachu)) pikachu (JInt 25) "pikachu"
                   [JStr "electric"] 4 60
                   eq_refl eq_refl eq_refl eq_refl eq_refl eq_refl eq_refl
                   eq_refl eq_refl));
    reflexivity.
Defined.

(** ** Examples of the further properties *)

(** While the service is unreachable "pikachu" is absent, and it stays
    absent when the service is back. *)
Lemma failed_fetch_is_remembered_unreachable :
  let st' := snd (fetch_pokemon_data any_repr unreachable (JStr "pikachu") init) in
  fetch_pokemon_data any_repr unreachable (JStr "pikachu") init = (Return None, st') /\
  fetch_pokemon_data any_repr pokeapi (JStr "pikachu") st' = (Return None, st').
Proof.
  apply (failed_fetch_is_remembered any_repr unreachable pokeapi (JStr "pikachu") init).
  - reflexivity.
  - apply (transport_error _ ConnectionError). reflexivity.
Defined.

(** After a status 500 the dataset for limit 151 stays empty. *)
Lemma failed_listing_is_remembered_500 :
  let st' := snd (load_pokemon_for_analysis any_repr server_error 151 init) in
  load_pokemon_for_analysis any_repr server_error 151 init = (Return [], st') /\
  load_pokemon_for_analysis any_repr pokeapi 151 st' = (Return [], st').
Proof.
  apply (failed_listing_is_remembered any_repr server_error pokeapi 151 init
           (mkResponse 500 None)); reflexivity.
Defined.

(** A listing page that is not JSON, and a listing document without
    [results]. *)
Lemma load_listing_document_errors_html :
  load_pokemon_for_analysis any_repr html_listing 151 init =
  (Raise (RequestException JSONDecodeError),
   mkState ["https://pokeapi.co/api/v2/pokemon?limit=151"] [] []) /\
  load_pokemon_for_analysis any_repr no_results 151 init =
  (Raise KeyError, mkState ["https://pokeapi.co/api/v2/pokemon?limit=151"] [] []).
Proof.
  split.
  - apply (proj1 (load_listing_document_errors any_repr html_listing 151 init
                    (mkResponse 200 None) eq_refl eq_refl eq_refl)).
    reflexivity.
  - apply (proj2 (load_listing_document_errors any_repr no_results 151 init
                    (mkResponse 200 (Some (JDict []))) eq_refl eq_refl eq_refl)
             (JDict []) KeyError); reflexivity.
Defined.

(** Entries stored by a fetch of "pikachu" outlive a fetch of "raichu" and a
    load. *)
Lemma cache_entries_persist_pikachu :
  let st := snd (fetch_pokemon_data any_repr three_listed (JStr "pikachu") init) in
  exists e,
    cached json_eqb (JStr "pikachu") (fetch_cache st) = Some e /\
    cached json_eqb (JStr "pikachu")
      (fetch_cache (snd (fetch_pokemon_data any_repr three_listed (JStr "raichu") st)))
      = Some e /\
    cached json_eqb (JStr "pikachu")
      (fetch_cache (snd (load_pokemon_for_analysis any_repr three_listed 3 st)))
      = Some e.
Proof.
  cbv zeta. eexists. split; [ vm_compute; reflexivity | ].
  edestruct (proj1 (cache_entries_persist any_repr three_listed
                      (snd (fetch_pokemon_data any_repr three_listed (JStr "pikachu") init)))
               (JStr "pikachu")) as (W1 & W2); [ vm_compute; reflexivity | ].
  split; [ apply W1 | apply W2 ].
Defined.

(** "hp" named twice, base stats 35 and 99: the record and the row hold 99. *)
Lemma repeated_stat_last_wins_hp :
  exists p st',
    fetch_pokemon_data any_repr hp_twice (JStr "pikachu") init
      = (Return (Some p), st') /\
    dict_lookup (stats p) (JStr "hp") = Some (JInt 99) /\
    forall flat, flat_data p = Return flat ->
      Forall (fun column => fst column = "hp" -> snd column flat = JInt 99)
        stat_columns.
Proof.
  eexists; eexists. split; [ vm_compute; reflexivity | ].
  eapply (repeated_stat_last_wins any_repr hp_twice (JStr "pikachu") init _ _ _ _
            [stat_entry "hp" 35; stat_entry "speed" 90] (stat_entry "hp" 99) []
            "hp" (JInt 99) eq_refl).
  - vm_compute. reflexivity.
  - reflexivity.
  - reflexivity.
  - reflexivity.
  - reflexivity.
  - reflexivity.
  - constructor.
Defined.

(** Two entries listed, the second without a name: the load raises
    [KeyError] after "pikachu" was fetched, and "pikachu" stays cached. *)
Lemma load_aborts_on_one_entry_nameless :
  let st1 := snd (fetch_pokemon_data any_repr nameless_listed (JStr "pikachu")
                    (logged (listing_url 2) init)) in
  load_pokemon_for_analysis any_repr nameless_listed 2 init = (Raise KeyError, st1) /\
  load_cache st1 = [] /\
  exists p, cached json_eqb (JStr "pikachu") (fetch_cache st1)
            = Some (JStr "pikachu", Some p).
Proof.
  cbv zeta.
  edestruct (load_aborts_on_one_entry any_repr nameless_listed 2 init
               (mkResponse 200
                  (Some (JDict [("results",
                                 JList [JDict [("name", JStr "pikachu")]; JDict []])])))
               (JDict [("results", JList [JDict [("name", JStr "pikachu")]; JDict []])])
               [JDict [("name", JStr "pikachu")]] (JDict []) [])
    as (W1 & W2 & W3);
    [ reflexivity | reflexivity | reflexivity | reflexivity | reflexivity
    | vm_compute; reflexivity | vm_compute; reflexivity
    | vm_compute; reflexivity | ].
  split; [ exact W1 | ]. split; [ exact W2 | ].
  eexists. vm_compute. reflexivity.
Defined.

(** After the load of three listed names, comparing "Pikachu" with "Raichu"
    costs no request, even with the service unreachable. *)
Lemma comparator_served_from_cache_three_listed :
  let st' := snd (load_pokemon_for_analysis any_repr three_listed 3 init) in
  exists data1 data2,
    compare_fetch any_repr unreachable "Pikachu" "Raichu" st'
      = (Return (Some data1, Some data2), st') /\
    name data1 = "Pikachu" /\ name data2 = "Raichu".
Proof.
  cbv zeta.
  eapply (comparator_served_from_cache any_repr three_listed unreachable 3 init
            (mkResponse 200 (Some (listing ["pikachu"; "missingno"; "raichu"])))
            (listing ["pikachu"; "missingno"; "raichu"])
            [JDict [("name", JStr "pikachu")]; JDict [("name", JStr "missingno")];
             JDict [("name", JStr "raichu")]]
            _ _ ["Pikachu"; "Raichu"] eq_refl eq_refl eq_refl eq_refl eq_refl).
  - vm_compute. reflexivity.
  - intros entry n p [<- | [<- | [<- | []]]] Hn Hc;
      injection Hn as <-; vm_compute in Hc; try discriminate Hc;
      injection Hc as <-; reflexivity.
  - reflexivity.
  - now left.
  - right. now left.
Defined.

(** After a status 500 on the listing the comparator's read of the names
    raises [KeyError]. *)
Lemma comparator_needs_a_row_500 :
  exists df st',
    load_pokemon_for_analysis any_repr server_error 151 init = (Return df, st') /\
    pokemon_list df = Raise KeyError.
Proof.
  edestruct (comparator_needs_a_row any_repr server_error 151 init)
    as (_ & _ & W3 & _); [ reflexivity | vm_compute; reflexivity | ].
  eexists; eexists. split; [ vm_compute; reflexivity | ].
  apply (W3 (mkResponse 500 None)); reflexivity.
Defined.

(** A search for "pikachu" leaves 25 in the session; the next run asks the
    service for number 25, and the runs after that ask for nothing. *)
Lemma rerun_looks_up_the_id_pikachu :
  let first := pokedex_lookup any_repr pokeapi_by_id None "pikachu" true init in
  let second := pokedex_lookup any_repr pokeapi_by_id (Some (JInt 25)) "" false (snd first) in
  (exists p, fst first = Return (JInt 25, Some p)) /\
  requests (snd first) = [pikachu_url; species_url] /\
  (exists more,
     requests (snd second) =
     (requests (snd first) ++ "https://pokeapi.co/api/v2/pokemon/25" :: more)%list) /\
  (exists q,
     fst second = Return (JInt 25, Some q) /\
     pokedex_lookup any_repr unreachable (Some (JInt 25)) "" false (snd second)
       = (Return (JInt 25, Some q), snd second)).
Proof.
  cbv zeta.
  destruct (pokedex_lookup any_repr pokeapi_by_id None "pikachu" true init)
    as [r1 st1] eqn:H1.
  vm_compute in H1. injection H1 as <- <-.
  edestruct (rerun_looks_up_the_id any_repr pokeapi_by_id None "pikachu" true init)
    as (_ & _ & W3 & W4); [ vm_compute; reflexivity | ].
  split; [ eexists; reflexivity | ].
  split; [ reflexivity | ].
  split; [ exact (W3 eq_refl "") | ].
  eexists. split; [ vm_compute; reflexivity | ].
  apply (W4 ""). vm_compute. reflexivity.
Defined.

(** A second load, with another limit but the same two names, fetches
    nothing. *)
Lemma load_reuses_fetched_names_unmetered :
  let st1 := snd (load_pokemon_for_analysis any_repr unmetered 1 init) in
  let st2 := snd (load_pokemon_for_analysis any_repr unmetered 5 st1) in
  requests st2 = (requests st1 ++ ["https://pokeapi.co/api/v2/pokemon?limit=5"])%list /\
  fetch_cache st2 = fetch_cache st1.
Proof.
  apply (load_reuses_fetched_names any_repr unmetered 5
           (snd (load_pokemon_for_analysis any_repr unmetered 1 init))
           (mkResponse 200 (Some (listing ["pikachu"; "raichu"])))
           (listing ["pikachu"; "raichu"])
           [JDict [("name", JStr "pikachu")]; JDict [("name", JStr "raichu")]]);
    try reflexivity.
  repeat constructor; eexists; eexists; (split; [ reflexivity | vm_compute; reflexivity ]).
Defined.

(** After the load of three names the first run still asks for entity 1. *)
Lemma first_lookup_is_not_preloaded_three_listed :
  let st' := snd (load_pokemon_for_analysis any_repr three_listed 3 init) in
  cached json_eqb (JInt 1) (fetch_cache st') = None /\
  searched None "" false = JInt 1 /\
  exists more,
    requests (snd (pokedex_lookup any_repr three_listed None "" false st')) =
    (requests st' ++ "https://pokeapi.co/api/v2/pokemon/1" :: more)%list.
Proof.
  apply (first_lookup_is_not_preloaded any_repr three_listed 3 init
           (mkResponse 200 (Some (listing ["pikachu"; "missingno"; "raichu"])))
           (listing ["pikachu"; "missingno"; "raichu"])
           [JDict [("name", JStr "pikachu")]; JDict [("name", JStr "missingno")];
            JDict [("name", JStr "raichu")]] "");
    try reflexivity.
  intros entry [<- | [<- | [<- | []]]]; discriminate.
Defined.
